(** * Discovery artifact manager: the cron server (server/main.py)

  A shallow embedding of the three cron handlers of [server/main.py]
  ([cron_discoveries], [cron_clients_php_update] and
  [cron_clients_php_release]) and the properties of the regeneration
  pipeline, the commit aggregator and the release tagger.

  The handlers are written in a state-and-exception monad over a [world]
  that holds the GitHub repository of the PHP client library, its clone in
  the temporary directory, the scratch directory of the generator and the
  trace of every effect performed (Datastore query, filesystem operation,
  external command with its return code).  What the handlers read from
  outside (Datastore content, catalog files, generator output, return
  codes of commands whose effect is outside the model) is an [env]. *)

From stdpp Require Import gmap strings list sorting.
From Stdlib Require Import String Ascii DecimalString DecimalPos DecimalN NArith ZArith.

Local Open Scope string_scope.

#[local] Set Warnings "-clear-no-such-hyp".

(** ** Python built-ins and library functions used by the server *)

Module Py.

(** The line feed written ['\n'] in the source. *)
Definition nl : string := String "010" "".

(** [str.rfind] for a single character: the highest index, or -1. *)
Fixpoint rfind_from (c : ascii) (s : string) (i last : Z) : Z :=
  match s with
  | EmptyString => last
  | String a r => rfind_from c r (i + 1)%Z (if Ascii.eqb a c then i else last)
  end.

Definition rfind (c : ascii) (s : string) : Z := rfind_from c s 0%Z (-1)%Z.

(** Slices [p[i:]] and [p[:i]] for a non-negative [i]. *)
Definition slice_from (i : Z) (p : string) : string :=
  substring (Z.to_nat i) (String.length p - Z.to_nat i) p.

Definition slice_to (i : Z) (p : string) : string :=
  substring 0 (Z.to_nat i) p.

(** [os.path.basename] (posixpath): [i = p.rfind('/') + 1; return p[i:]]. *)
Definition basename (p : string) : string :=
  slice_from (rfind "/" p + 1)%Z p.

Fixpoint all_dots (s : string) : bool :=
  match s with
  | EmptyString => true
  | String a r => Ascii.eqb a "." && all_dots r
  end.

(** First component of [os.path.splitext] (posixpath, [genericpath._splitext]):
    the extension starts at the last dot, provided that dot comes after the
    last separator and is preceded there by a character that is not a dot. *)
Definition splitext (p : string) : string :=
  let sepIndex := rfind "/" p in
  let dotIndex := rfind "." p in
  if (sepIndex <? dotIndex)%Z then
    let filenameIndex := (sepIndex + 1)%Z in
    if all_dots (substring (Z.to_nat filenameIndex)
                           (Z.to_nat (dotIndex - filenameIndex)) p)
    then p
    else slice_to dotIndex p
  else p.

(** [output.decode('utf-8').strip()] on output that is ASCII text: there
    [decode] returns the characters of the bytes and the whitespace
    [str.strip()] removes is the tab, line feed, vertical tab, form feed and
    carriage return (9 to 13), the four separators (28 to 31) and the
    space.  Output with a byte above 127, where [decode] can raise and
    [strip] also removes the white space of Unicode, is outside the domain
    of [strip]. *)
Definition isspace (c : ascii) : bool :=
  let n := nat_of_ascii c in
  ((9 <=? n)%nat && (n <=? 13)%nat) || ((28 <=? n)%nat && (n <=? 32)%nat).

Fixpoint lstrip (s : string) : string :=
  match s with
  | EmptyString => EmptyString
  | String a r => if isspace a then lstrip r else s
  end.

Fixpoint rstrip (s : string) : string :=
  match s with
  | EmptyString => EmptyString
  | String a r =>
      match rstrip r with
      | EmptyString => if isspace a then EmptyString else String a EmptyString
      | r' => String a r'
      end
  end.

Definition strip (s : string) : string := rstrip (lstrip s).

(** [int(s)] for a string of decimal digits ([ValueError], here [None],
    otherwise) and [str(n)] for a natural number. *)
Definition int (s : string) : option N :=
  match s with
  | EmptyString => None
  | _ => N.of_uint <$> NilEmpty.uint_of_string s
  end.

Definition str (n : N) : string := NilEmpty.string_of_uint (N.to_uint n).

(** [sorted(s)] for a set of strings: [str] values compare character by
    character ([String.le] is [String.leb]). *)
Definition sorted (s : gset string) : list string :=
  merge_sort String.le (elements s).

End Py.

(** ** The regular expression of the release tagger *)

Module VersionRe.

(** The source text of the pattern, [r'^(v[0-9]+)\.([0-9]+)$']. *)
Definition pattern : string := "^(v[0-9]+)\.([0-9]+)$".

(** The character class [[0-9]]. *)
Definition is_digit (c : ascii) : bool :=
  let n := nat_of_ascii c in (48 <=? n)%nat && (n <=? 57)%nat.

(** The greedy [[0-9]*]: the longest prefix of digits and what follows it. *)
Fixpoint digits (s : string) : string * string :=
  match s with
  | String a r =>
      if is_digit a then let '(d, t) := digits r in (String a d, t)
      else (EmptyString, s)
  | EmptyString => (EmptyString, EmptyString)
  end.

(** The result of [version_re.match(s)]: groups 1 and 2, and the text left
    after the match.  Python's [$] matches at the end of the string and
    also just before a line feed that ends the string. *)
Record match_ := { group1 : string; group2 : string; after : string }.

Definition match' (s : string) : option match_ :=
  match s with
  | String a r =>
      if Ascii.eqb a "v" then
        match digits r with
        | (EmptyString, _) => None
        | (_, EmptyString) => None
        | (major, String b r') =>
            if Ascii.eqb b "." then
              match digits r' with
              | (EmptyString, _) => None
              | (minor, t) =>
                  if bool_decide (t = "" ∨ t = Py.nl)
                  then Some {| group1 := String "v" major; group2 := minor;
                               after := t |}
                  else None
              end
            else None
        end
      else None
  | EmptyString => None
  end.

(** [version_re.sub(r'\1.<new>', s)]: the only match of an anchored pattern
    starts at index 0; it is replaced by group 1, a dot and [new], and the
    text after the match is kept. *)
Definition sub (new : string) (s : string) : string :=
  match match' s with
  | Some m => group1 m +:+ "." +:+ new +:+ after m
  | None => s
  end.

End VersionRe.

(** ** Data model *)

(** [GitHubAccount = namedtuple('GitHubAccount',
    'name email username personal_access_token')]. *)
Record GitHubAccount := {
  name : string;
  email : string;
  username : string;
  personal_access_token : string
}.

(** An entry of [root['items']] in [discoveries/index.json]. *)
Record api := { api_id : string; api_preferred : bool }.

(** The keys the pipeline reads from a Discovery document. *)
Record document := { doc_id : string; doc_name : string; doc_version : string }.

(** An entry of a directory: a file or a sub-directory, with opaque content. *)
Inductive node := File (content : string) | Dir (content : string).

#[global] Instance node_eq_dec : EqDecision node.
Proof. solve_decision. Defined.

(** The entries of [src/Google/Service], keyed by entry name. *)
Abbreviation tree := (gmap string node).

(** A commit of the client library: its message and its [Service] tree. *)
Record commit := { commit_msg : string; commit_tree : tree }.

#[global] Instance commit_eq_dec : EqDecision commit.
Proof. solve_decision. Defined.

(** The tree of [HEAD]; a repository without commits has an empty tree. *)
Definition head_tree (history : list commit) : tree :=
  match history with
  | c :: _ => commit_tree c
  | [] => ∅
  end.

(** The part of the Flask request the handlers read:
    [request.headers.get(key)]. *)
Record request := { headers_get : string → option string }.

(** The working directories passed as [cwd]. *)
Inductive workdir := dartman_dir | client_lib_dir.

(** The external commands the server runs through [_call] and
    [subprocess.check_output], with the arguments that vary.  A command
    stands for the argument list [shlex.split] returns for the formatted
    string when each argument comes out as one word, unchanged: it holds no
    quote and no backslash and, where the format string does not put it
    between double quotes, no whitespace.  An argument with an unbalanced
    quote, on which [shlex.split] raises [ValueError], is outside the
    domain of the commands. *)
Inductive command :=
| git_clone (url : string) (dst : workdir)
| ln_s                      (* ln -s <dartman>/src <go>/src/discovery-artifact-manager *)
| go_run (prog : string)
| git_add (path : string) (cwd : workdir)
| git_commit (user_name user_email : string) (all allow_empty_message : bool)
             (msg : string) (cwd : workdir)
| git_reset_soft (n : nat)  (* git reset --soft HEAD~n *)
| git_remote_add (remote url : string) (cwd : workdir)
| git_push (remote : string) (tags : bool) (cwd : workdir)
| virtualenv
| setup_py_install
| generate_library (input : string)  (* --language php --language_variant 1.2.0 *)
| rm_rf (service_name : string)      (* rm -rf <service>/N.php <service>/N *)
| cp (service_name : string)         (* cp <tmp2>/N.php <service> *)
| cp_r (service_name : string)       (* cp -r <tmp2>/N <service> *)
| git_tag (version : string)
| git_describe                       (* git describe --tags --abbrev=0 *)
| git_log (since : string).          (* git log <since>..HEAD --oneline *)

#[global] Instance workdir_eq_dec : EqDecision workdir.
Proof. solve_decision. Defined.

#[global] Instance command_eq_dec : EqDecision command.
Proof. solve_decision. Defined.

(** Every effect a handler performs, in order. *)
Inductive event :=
| EDatastoreQuery                 (* ds.query(kind='GitHubAccount').fetch() *)
| EMkdtemp                        (* entering [with TemporaryDirectory()] *)
| ECleanup                        (* leaving it *)
| EMakedirs
| EOpen (filename : string)       (* open(filename) and json.load *)
| EGlob
| EListdir
| EExists (path : string)
| ECall (c : command) (rc : Z).   (* an external command and its return code *)

#[global] Instance event_eq_dec : EqDecision event.
Proof. solve_decision. Defined.

(** The exceptions that leave a handler. *)
Inductive exn :=
| HTTPException (code : nat)              (* flask.abort(code) *)
| CalledProcessError (c : command) (rc : Z)
| KeyError (key : string)
| IndexError
| ValueError
| Exception (msg : string).

(** What a run reads from outside the model. *)
Record env := {
  (** the entities of kind [GitHubAccount] in Datastore *)
  datastore_accounts : list GitHubAccount;
  (** [date.today().isoformat()] *)
  today : string;
  (** [root['items']] of [discoveries/index.json] *)
  index_items : list api;
  (** [glob.glob(<dartman>/discoveries/*.json)], in the order returned *)
  discovery_glob : list string;
  (** the parsed Discovery document at a path *)
  discovery_document : string → document;
  (** what [bin/generate_library --input f] leaves in its output directory,
      in [os.listdir] order; [None] when it exits with a non-zero code *)
  generator : string → option (list (string * node));
  (** return code of a command whose effect is outside the model *)
  sh : command → Z;
  (** standard output of a command run by [check_output]; [None] when it
      exits with a non-zero code *)
  sh_output : command → option string
}.

(** The state the handlers act on. *)
Record world := {
  (** every effect performed so far, oldest first *)
  trace : list event;
  (** github.com/google/google-api-php-client-services: history, newest first *)
  remote : list commit;
  (** history of the clone in the temporary directory, newest first *)
  commits : list commit;
  (** working copy of [src/Google/Service] in the clone *)
  service : tree;
  (** content of the generator's output directory [tmp_dir2] *)
  scratch : list (string * node)
}.

Definition log (e : event) (w : world) : world :=
  {| trace := trace w ++ [e]; remote := remote w; commits := commits w;
     service := service w; scratch := scratch w |}.

Definition set_service (t : tree) (w : world) : world :=
  {| trace := trace w; remote := remote w; commits := commits w;
     service := t; scratch := scratch w |}.

Definition set_commits (h : list commit) (w : world) : world :=
  {| trace := trace w; remote := remote w; commits := h;
     service := service w; scratch := scratch w |}.

Definition set_remote (h : list commit) (w : world) : world :=
  {| trace := trace w; remote := h; commits := commits w;
     service := service w; scratch := scratch w |}.

Definition set_scratch (s : list (string * node)) (w : world) : world :=
  {| trace := trace w; remote := remote w; commits := commits w;
     service := service w; scratch := s |}.

(** Lookup of an entry of the scratch directory by name. *)
Fixpoint scratch_lookup (s : list (string * node)) (n : string) : option node :=
  match s with
  | [] => None
  | (k, v) :: s' => if decide (k = n) then Some v else scratch_lookup s' n
  end.

(** ** The monad of the handlers: state and exceptions *)

Definition M (A : Type) : Type := world → (exn + A) * world.

#[global] Instance M_ret : MRet M := λ A a w, (inr a, w).

#[global] Instance M_bind : MBind M := λ A B f m w,
  match m w with
  | (inl e, w') => (inl e, w')
  | (inr a, w') => f a w'
  end.

Definition raise {A} (e : exn) : M A := λ w, (inl e, w).

Definition emit (e : event) : M unit := λ w, (inr tt, log e w).

(** [for x in l: s = body(x, s)], the loop variables threaded as [s]. *)
Fixpoint for_ {A S} (l : list A) (body : A → S → M S) (s : S) : M S :=
  match l with
  | [] => mret s
  | x :: l' => s' ← body x s; for_ l' body s'
  end.

(** [with TemporaryDirectory() as d: body]: the directory is removed on
    every exit path. *)
Definition with_TemporaryDirectory {A} (body : M A) : M A := λ w,
  let '(r, w') := body (log EMkdtemp w) in (r, log ECleanup w').

(** ** The handlers *)

(** The loop variables of [cron_clients_php_update]. *)
Record locals := {
  processed : gset string;
  added : gset string;
  updated : gset string;
  commit_count : nat;
  returncode : Z
}.

(** The dictionary [preferred] after the index is read and the two entries
    are overwritten. *)
Definition preferred_of (items : list api) : gmap string bool :=
  let preferred := foldl (λ p a, <[api_id a := api_preferred a]> p) ∅ items in
  let preferred := <["admin:directory_v1" := true]> preferred in
  <["admin:datatransfer_v1" := true]> preferred.

(** The summary message of the aggregate commit. *)
Definition commit_lines (ids : list string) (msg : string) : string :=
  foldl (λ m id_, m +:+ "- " +:+ id_ +:+ Py.nl) msg ids.

Definition commitmsg (today_ : string) (added_ updated_ : gset string) : string :=
  let msg := "Autogenerated update (" +:+ today_ +:+ ")" +:+ Py.nl in
  let msg :=
    if decide (added_ = ∅) then msg
    else commit_lines (Py.sorted added_) (msg +:+ Py.nl +:+ "Add:" +:+ Py.nl) in
  if decide (updated_ = ∅) then msg
  else commit_lines (Py.sorted updated_) (msg +:+ Py.nl +:+ "Update:" +:+ Py.nl).

(** ['https://{}:{}@github.com' + repo], with the account's credentials. *)
Definition remote_url (account : GitHubAccount) (repo : string) : string :=
  "https://" +:+ username account +:+ ":" +:+ personal_access_token account
  +:+ "@github.com" +:+ repo.

Section Server.
Context (E : env).

(** Effect and return code of an external command.  [git commit] in the
    client library returns non-zero when the working copy equals the tree
    of [HEAD] (nothing to commit); [rm -rf] and the two copies act on
    [src/Google/Service], which is taken to be a directory of the clone (as
    it is when the tree cloned has an entry: git keeps no empty
    directory); a push that succeeds publishes the history.  A command
    that fails without a code of its own in the model returns 1, which
    stands for any non-zero code. *)
Definition exec (c : command) (w : world) : Z * world :=
  match c with
  | git_clone _ client_lib_dir =>
      if decide (sh E c = 0%Z)
      then (0%Z, set_service (head_tree (remote w)) (set_commits (remote w) w))
      else (sh E c, w)
  | git_commit _ _ _ allow_empty_message msg client_lib_dir =>
      if decide (service w = head_tree (commits w)) then (1%Z, w)
      else if decide (msg = "" ∧ allow_empty_message = false) then (1%Z, w)
      else (0%Z, set_commits ({| commit_msg := msg; commit_tree := service w |}
                               :: commits w) w)
  | git_reset_soft n =>
      if decide (n < List.length (commits w))%nat
      then (0%Z, set_commits (drop n (commits w)) w)
      else (128%Z, w)
  | git_push _ false client_lib_dir =>
      if decide (sh E c = 0%Z) then (0%Z, set_remote (commits w) w)
      else (sh E c, w)
  | generate_library input =>
      match generator E input with
      | Some out => (0%Z, set_scratch out w)
      | None => (1%Z, w)
      end
  | rm_rf n =>
      (0%Z, set_service (delete n (delete (n +:+ ".php") (service w))) w)
  | cp n =>
      match scratch_lookup (scratch w) (n +:+ ".php") with
      | Some (File x) => (0%Z, set_service (<[n +:+ ".php" := File x]> (service w)) w)
      | _ => (1%Z, w)
      end
  | cp_r n =>
      match scratch_lookup (scratch w) n with
      | Some x => (0%Z, set_service (<[n := x]> (service w)) w)
      | None => (1%Z, w)
      end
  | _ => (sh E c, w)
  end.

(** [_call(cmd, check)]: runs the command; with [check] a non-zero return
    code raises [CalledProcessError]. *)
Definition _call (cmd : command) (check : bool) : M Z := λ w,
  let '(rc, w') := exec cmd w in
  if check && negb (rc =? 0)%Z
  then (inl (CalledProcessError cmd rc), log (ECall cmd rc) w')
  else (inr rc, log (ECall cmd rc) w').

(** [subprocess.check_output(shlex.split(cmd))]: the standard output, or
    [CalledProcessError] when the command exits with a non-zero code (1
    stands for any such code). *)
Definition check_output (cmd : command) : M string := λ w,
  match sh_output E cmd with
  | Some out => (inr out, log (ECall cmd 0%Z) w)
  | None => (inl (CalledProcessError cmd 1%Z), log (ECall cmd 1%Z) w)
  end.

Definition _get_github_account : M GitHubAccount :=
  emit EDatastoreQuery;;
  match datastore_accounts E with
  | account :: _ => mret account
  | [] => raise IndexError
  end.

Definition cron_discoveries (req : request) : M string :=
  match headers_get req "X-Appengine-Cron" with
  | None => raise (HTTPException 403)
  | Some _ =>
      account ← _get_github_account;
      with_TemporaryDirectory (
        emit EMakedirs;;
        _call (git_clone "https://github.com/googleapis/discovery-artifact-manager"
                         dartman_dir) true;;
        _call ln_s true;;
        _call (go_run "src/main/updatedisco/main.go") true;;
        _call (git_add "discoveries" dartman_dir) true;;
        returncode_ ← _call (git_commit (name account) (email account) false false
                               "Autogenerated Discovery document update"
                               dartman_dir) false;
        if (returncode_ =? 0)%Z then
          _call (git_remote_add "github"
                   (remote_url account "/googleapis/discovery-artifact-manager")
                   dartman_dir) true;;
          _call (git_push "github" false dartman_dir) true;;
          mret tt
        else mret tt);;
      mret ""
  end.

(** [with open(filename) as file_: root = json.load(file_)]. *)
Definition open_json (filename : string) : M document :=
  emit (EOpen filename);;
  mret (discovery_document E filename).

(** [os.listdir(tmp_dir2)]. *)
Definition listdir : M (list string) := λ w,
  (inr (scratch w).*1, log EListdir w).

(** [os.path.exists(os.path.join(service_dir, entry))]. *)
Definition path_exists (entry : string) : M bool := λ w,
  (inr (bool_decide (is_Some (service w !! entry))), log (EExists entry) w).

(** The block under [with TemporaryDirectory() as tmp_dir2]: generates the
    service into the scratch directory and replaces it in the client
    library; its value is [service_exists]. *)
Definition regenerate (filename : string) : M bool :=
  with_TemporaryDirectory (
    _call (generate_library filename) true;;
    dirs ← listdir;
    match dirs with
    | [] => raise IndexError
    | d0 :: _ =>
        let service_name := Py.splitext d0 in
        service_exists ← path_exists (service_name +:+ ".php");
        _call (rm_rf service_name) true;;
        _call (cp service_name) true;;
        _call (cp_r service_name) true;;
        mret service_exists
    end).

Definition set_processed (p : gset string) (v : locals) : locals :=
  {| processed := p; added := added v; updated := updated v;
     commit_count := commit_count v; returncode := returncode v |}.

(** The body of [for filename in discovery_document_filenames]. *)
Definition update_body (account : GitHubAccount) (preferred : gmap string bool)
    (filename : string) (v : locals) : M locals :=
  root ← open_json filename;
  let id_ := doc_id root in
  let name_ := doc_name root in
  if decide (id_ ∈ processed v) then mret v
  else
    let v := set_processed ({[id_]} ∪ processed v) v in
    if decide (name_ = "discovery") then mret v
    else
      match preferred !! id_ with
      | None => raise (KeyError id_)
      | Some false => mret v
      | Some true =>
          service_exists ← regenerate filename;
          _call (git_add "src" client_lib_dir) true;;
          rc ← _call (git_commit (name account) (email account) true true ""
                        client_lib_dir) false;
          if (rc =? 0)%Z then
            mret {| processed := processed v;
                    added := if service_exists : bool then added v
                             else {[id_]} ∪ added v;
                    updated := if service_exists : bool then {[id_]} ∪ updated v
                               else updated v;
                    commit_count := commit_count v + 1;
                    returncode := 0 |}
          else mret v
      end.

(** The loop variables before the first iteration. *)
Definition locals0 : locals :=
  {| processed := ∅; added := ∅; updated := ∅; commit_count := 0;
     returncode := (-1)%Z |}.

(** The file names the loop visits: the glob without [index.json]. *)
Definition discovery_document_filenames : list string :=
  filter (λ filename, Py.basename filename ≠ "index.json") (discovery_glob E).

(** [cron_clients_php_update] from the first clone to the loop: the two
    clones, the dictionary [preferred], the glob and the virtualenv with the
    generator. *)
Definition pipeline_setup : M (gmap string bool) :=
  _call (git_clone "https://github.com/googleapis/discovery-artifact-manager"
                   dartman_dir) true;;
  _call (git_clone "https://github.com/google/google-api-php-client-services"
                   client_lib_dir) true;;
  emit (EOpen "discoveries/index.json");;
  let preferred := preferred_of (index_items E) in
  emit EGlob;;
  _call virtualenv true;;
  _call setup_py_install true;;
  mret preferred.

(** [cron_clients_php_update] up to the end of the loop. *)
Definition regeneration_pipeline (account : GitHubAccount) : M locals :=
  preferred ← pipeline_setup;
  for_ discovery_document_filenames (update_body account preferred) locals0.

(** [cron_clients_php_update] after the loop: the commit aggregator. *)
Definition commit_aggregator (account : GitHubAccount) (v : locals) : M unit :=
  if (returncode v =? 0)%Z then
    _call (git_reset_soft (commit_count v)) true;;
    _call (git_commit (name account) (email account) true false
             (commitmsg (today E) (added v) (updated v)) client_lib_dir) true;;
    _call (git_remote_add "github"
             (remote_url account "/google/google-api-php-client-services")
             client_lib_dir) true;;
    _call (git_push "github" false client_lib_dir) true;;
    mret tt
  else mret tt.

Definition cron_clients_php_update (req : request) : M string :=
  match headers_get req "X-Appengine-Cron" with
  | None => raise (HTTPException 403)
  | Some _ =>
      account ← _get_github_account;
      with_TemporaryDirectory (
        v ← regeneration_pipeline account;
        commit_aggregator account v);;
      mret ""
  end.

Definition cron_clients_php_release (req : request) : M string :=
  match headers_get req "X-Appengine-Cron" with
  | None => raise (HTTPException 403)
  | Some _ =>
      account ← _get_github_account;
      with_TemporaryDirectory (
        _call (git_clone "https://github.com/google/google-api-php-client-services"
                         client_lib_dir) true;;
        output ← check_output git_describe;
        let latest_tag := Py.strip output in
        output ← check_output (git_log latest_tag);
        if decide (output = "") then mret tt
        else
          match VersionRe.match' latest_tag with
          | None =>
              raise (Exception ("latest tag does not match the pattern '"
                                +:+ VersionRe.pattern +:+ "': " +:+ latest_tag))
          | Some m =>
              let minor_revision := VersionRe.group2 m in
              match Py.int minor_revision with
              | None => raise ValueError
              | Some n =>
                  let new_minor_revision := Py.str (n + 1) in
                  let new_version := VersionRe.sub new_minor_revision latest_tag in
                  _call (git_tag new_version) true;;
                  _call (git_remote_add "github"
                           (remote_url account "/google/google-api-php-client-services")
                           client_lib_dir) true;;
                  _call (git_push "github" true client_lib_dir) true;;
                  mret tt
              end
          end);;
      mret ""
  end.

End Server.

(** ** Notions the properties are stated with *)

(** A string of decimal digits. *)
Fixpoint digit_string (s : string) : bool :=
  match s with
  | EmptyString => true
  | String a r => VersionRe.is_digit a && digit_string r
  end.

(** The tags of the form [v<major>.<minor>]. *)
Definition version_tag (tag : string) : Prop :=
  ∃ major minor,
    major ≠ "" ∧ minor ≠ "" ∧
    digit_string major = true ∧ digit_string minor = true ∧
    tag = "v" +:+ major +:+ "." +:+ minor.




(** The lines [- id] of a section of the summary, one per id. *)
Definition id_lines (ids : list string) : string :=
  foldr (λ id_ s, "- " +:+ id_ +:+ Py.nl +:+ s) "" ids.

(** A section of the summary: nothing for an empty list, else a blank line,
    the header and the lines of the ids. *)
Definition section_text (header : string) (ids : list string) : string :=
  match ids with
  | [] => ""
  | _ => Py.nl +:+ header +:+ Py.nl +:+ id_lines ids
  end.

(** ** Concrete catalogs and requests *)

Module Example.

Definition account : GitHubAccount :=
  {| name := "bot"; email := "bot@example.com"; username := "bot";
     personal_access_token := "token" |}.

(** A request sent by the cron service, and one that is not. *)
Definition cron_request : request :=
  {| headers_get := λ key, if decide (key = "X-Appengine-Cron") then Some "true" else None |}.

Definition other_request : request := {| headers_get := λ _, None |}.

Definition doc (id_ name_ version_ : string) : document :=
  {| doc_id := id_; doc_name := name_; doc_version := version_ |}.

(** The output directory of the generator for a service [n] with content [c]. *)
Definition output (n c : string) : list (string * node) :=
  [(n +:+ ".php", File c); (n, Dir c)].

(** A world whose client library has one commit with an empty tree. *)
Definition world0 : world :=
  {| trace := []; remote := [{| commit_msg := "Initial commit"; commit_tree := ∅ |}];
     commits := []; service := ∅; scratch := [] |}.

(** A world whose client library has one commit, with a service [Kept] in
    [src/Google/Service]. *)
Definition world_kept : world :=
  {| trace := [];
     remote := [{| commit_msg := "Initial commit";
                   commit_tree := list_to_map (output "Kept" "0") |}];
     commits := []; service := ∅; scratch := [] |}.

(** A catalog: two preferred APIs, one that is not preferred, the
    directory's own document and a second document with the id of the
    first.  Every external command succeeds; the latest tag is [v0.12] and
    one commit follows it. *)
Definition documents (f : string) : document :=
  if decide (f = "discoveries/alpha.v1.json") then doc "alpha:v1" "alpha" "v1"
  else if decide (f = "discoveries/beta.v1.json") then doc "beta:v1" "beta" "v1"
  else if decide (f = "discoveries/gamma.v1.json") then doc "gamma:v1" "gamma" "v1"
  else if decide (f = "discoveries/discovery.v1.json")
       then doc "discovery:v1" "discovery" "v1"
  else doc "alpha:v1" "alpha" "v1".

Definition outputs (f : string) : option (list (string * node)) :=
  if decide (f = "discoveries/alpha.v1.json") then Some (output "Alpha" "1")
  else if decide (f = "discoveries/beta.v1.json") then Some (output "Beta" "2")
  else Some (output "Other" "3").

Definition stdout (c : command) : option string :=
  match c with
  | git_describe => Some ("v0.12" +:+ Py.nl)
  | git_log _ => Some ("abc1234 Autogenerated update" +:+ Py.nl)
  | _ => None
  end.

Definition catalog : env :=
  {| datastore_accounts := [account];
     today := "2020-01-01";
     index_items := [ {| api_id := "alpha:v1"; api_preferred := true |};
                      {| api_id := "beta:v1"; api_preferred := true |};
                      {| api_id := "gamma:v1"; api_preferred := false |};
                      {| api_id := "discovery:v1"; api_preferred := true |} ];
     discovery_glob := ["discoveries/alpha.v1.json"; "discoveries/index.json";
                        "discoveries/beta.v1.json"; "discoveries/gamma.v1.json";
                        "discoveries/discovery.v1.json";
                        "discoveries/alpha-copy.v1.json"];
     discovery_document := documents;
     generator := outputs;
     sh := λ _, 0%Z;
     sh_output := stdout |}.

(** The same catalog where the two preferred APIs, of distinct ids, are
    generated under one service name with different content. *)
Definition clash : env :=
  {| datastore_accounts := [account];
     today := "2020-01-01";
     index_items := index_items catalog;
     discovery_glob := ["discoveries/alpha.v1.json"; "discoveries/index.json";
                        "discoveries/beta.v1.json"];
     discovery_document := documents;
     generator := λ f, if decide (f = "discoveries/alpha.v1.json")
                       then Some (output "Foo" "1") else Some (output "Foo" "2");
     sh := λ _, 0%Z;
     sh_output := stdout |}.

(** The catalog with an index that does not list [beta:v1]. *)
Definition unindexed : env :=
  {| datastore_accounts := [account];
     today := "2020-01-01";
     index_items := [ {| api_id := "alpha:v1"; api_preferred := true |} ];
     discovery_glob := discovery_glob catalog;
     discovery_document := documents;
     generator := outputs;
     sh := λ _, 0%Z;
     sh_output := stdout |}.


(** The value of a computation that returned, [d] if it raised. *)
Definition value {A} (d : A) (r : (exn + A) * world) : A :=
  match r.1 with
  | inr a => a
  | inl _ => d
  end.

(** The world when the loop starts, for a request on [world0]. *)
Definition start (E : env) (w : world) : world :=
  (pipeline_setup E (log EMkdtemp (log EDatastoreQuery w))).2.

(** The world after a first run of the regeneration job on [world0]. *)
Definition world1 (E : env) : world :=
  (cron_clients_php_update E cron_request world0).2.

(** The events a second run adds. *)
Definition second_run (E : env) : list event :=
  drop (List.length (trace (world1 E)))
       (trace (cron_clients_php_update E cron_request (world1 E)).2).

(** The same for a first run on any world. *)
Definition world1_from (E : env) (w : world) : world :=
  (cron_clients_php_update E cron_request w).2.

Definition second_run_from (E : env) (w : world) : list event :=
  drop (List.length (trace (world1_from E w)))
       (trace (cron_clients_php_update E cron_request (world1_from E w)).2).

End Example.


(** The artifact found in the generator's output directory: the service
    name derived from the first entry listed, the content of the file
    [<name>.php] and the entry [<name>]. *)
Record artifact := { art_name : string; art_file : string; art_dir : node }.

Definition artifact_of (out : list (string * node)) : option artifact :=
  match out.*1 with
  | [] => None
  | d0 :: _ =>
      let service_name := Py.splitext d0 in
      match scratch_lookup out (service_name +:+ ".php"),
            scratch_lookup out service_name with
      | Some (File x), Some y =>
          Some {| art_name := service_name; art_file := x; art_dir := y |}
      | _, _ => None
      end
  end.

(** The artifact generated from a Discovery document. *)
Definition artifact_for (E : env) (filename : string) : option artifact :=
  generator E filename ≫= artifact_of.

(** The entries of [src/Google/Service] an artifact occupies. *)
Definition writes (a : artifact) : tree :=
  <[art_name a := art_dir a]> {[art_name a +:+ ".php" := File (art_file a)]}.

(** Two artifacts are compatible when they hold the same content at every
    entry both occupy: the union of their entries does not depend on the
    order. *)
Definition compatible (a b : artifact) : Prop :=
  writes a ∪ writes b = writes b ∪ writes a.

Definition compatible_files (E : env) (f g : string) : Prop :=
  match artifact_for E f, artifact_for E g with
  | Some a, Some b => compatible a b
  | _, _ => True
  end.

#[global] Instance compatible_files_dec E f g : Decision (compatible_files E f g).
Proof.
  unfold compatible_files, compatible.
  destruct (artifact_for E f), (artifact_for E g); apply _.
Defined.

(** The Discovery documents for which the generator ran successfully. *)
Definition generated_file (e : event) : option string :=
  match e with
  | ECall (generate_library f) 0%Z => Some f
  | _ => None
  end.

Definition generated_files (t : list event) : list string :=
  omap generated_file t.

(** The per-descriptor commits that succeeded: the commands
    [git commit -a --allow-empty-message -m ""] with return code 0. *)
Definition is_descriptor_commit (e : event) : bool :=
  match e with
  | ECall (git_commit _ _ true true EmptyString client_lib_dir) 0%Z => true
  | _ => false
  end.

Definition descriptor_commits (t : list event) : nat :=
  List.length (List.filter is_descriptor_commit t).

(** The events of the commit aggregator and the publisher: soft reset,
    aggregate commit (the [git commit] without [--allow-empty-message]),
    remote addition and push. *)
Definition publishes (e : event) : bool :=
  match e with
  | ECall (git_reset_soft _) _ => true
  | ECall (git_commit _ _ _ false _ client_lib_dir) _ => true
  | ECall (git_remote_add _ _ _) _ => true
  | ECall (git_push _ _ _) _ => true
  | _ => false
  end.

(** The loop variables after an iteration whose commit succeeded. *)
Definition committed (id_ : string) (service_exists : bool) (v : locals) : locals :=
  {| processed := {[id_]} ∪ processed v;
     added := if service_exists then added v else {[id_]} ∪ added v;
     updated := if service_exists then {[id_]} ∪ updated v else updated v;
     commit_count := commit_count v + 1;
     returncode := 0 |}.

(** The events of an iteration that generates artifact [a] from [filename]
    and whose commit returns [rc]. *)
Definition generation_events (account : GitHubAccount) (filename : string)
    (a : artifact) (rc : Z) : list event :=
  [EOpen filename; EMkdtemp; ECall (generate_library filename) 0;
   EListdir; EExists (art_name a +:+ ".php"); ECall (rm_rf (art_name a)) 0;
   ECall (cp (art_name a)) 0; ECall (cp_r (art_name a)) 0; ECleanup;
   ECall (git_add "src" client_lib_dir) 0;
   ECall (git_commit (name account) (email account) true true "" client_lib_dir) rc].
(** The classification sets stay disjoint and inside [processed]; an id that
    is already in [processed] keeps its classification. *)
Definition classified (v : locals) : Prop :=
  added v ∪ updated v ⊆ processed v ∧ added v ## updated v.


(** The two clones and the events of [pipeline_setup] when it succeeds. *)
Definition dartman_clone : command :=
  git_clone "https://github.com/googleapis/discovery-artifact-manager" dartman_dir.

Definition client_lib_clone : command :=
  git_clone "https://github.com/google/google-api-php-client-services"
            client_lib_dir.

Definition setup_events : list event :=
  [ECall dartman_clone 0; ECall client_lib_clone 0;
   EOpen "discoveries/index.json"; EGlob;
   ECall virtualenv 0; ECall setup_py_install 0].

(** Any two of the documents are compatible. *)
Definition pairwise_compatible (E : env) (l : list string) : Prop :=
  Forall (λ f, Forall (λ g, compatible_files E f g) l) l.

#[global] Instance pairwise_compatible_dec E l : Decision (pairwise_compatible E l).
Proof. unfold pairwise_compatible. apply _. Defined.

(** A computation only appends events that satisfy [P] to the trace,
    whether it returns or raises. *)
Definition emits (P : event → Prop) {A} (m : M A) : Prop :=
  ∀ w r w', m w = (r, w') → ∃ t, trace w' = (trace w ++ t)%list ∧ Forall P t.

(** What a part of the loop that returned normally has done, from the loop
    variables [v] and world [w] to [v'] and [w'], with the events [t]. *)
Record segment (E : env) (v : locals) (w : world) (v' : locals) (w' : world)
    (t : list event) : Prop := {
  seg_trace : trace w' = (trace w ++ t)%list;
  seg_remote : remote w' = remote w;
  seg_count : commit_count v' = commit_count v + descriptor_commits t;
  seg_none : descriptor_commits t = 0 →
             commits w' = commits w ∧ returncode v' = returncode v;
  seg_some : descriptor_commits t ≠ 0 → returncode v' = 0%Z;
  seg_quiet : Forall (λ e, publishes e = false) t;
  seg_head : service w = head_tree (commits w) →
             service w' = head_tree (commits w');
  seg_keeps : ∀ b, writes b ⊆ service w →
              Forall (λ f, ∀ a, artifact_for E f = Some a → compatible a b)
                     (generated_files t) →
              writes b ⊆ service w';
  seg_writes : pairwise_compatible E (generated_files t) →
               Forall (λ f, ∀ a, artifact_for E f = Some a →
                                 writes a ⊆ service w')
                      (generated_files t)
}.

(** ** Notions for the further properties *)

(** A computation appends to the trace a list of events that satisfies [Q],
    whether it returns or raises. *)
Definition appends (Q : list event → Prop) {A} (m : M A) : Prop :=
  ∀ w r w', m w = (r, w') → ∃ t, trace w' = (trace w ++ t)%list ∧ Q t.

(** As many temporary directories removed as created. *)
Definition balanced (t : list event) : Prop :=
  List.length (List.filter (λ e, bool_decide (e = EMkdtemp)) t)
  = List.length (List.filter (λ e, bool_decide (e = ECleanup)) t).

(** A computation leaves the repository on GitHub as it is, whether it
    returns or raises. *)
Definition keeps_remote {A} (m : M A) : Prop :=
  ∀ w r w', m w = (r, w') → remote w' = remote w.

(** A name without dot and without separator. *)
Fixpoint plain (s : string) : bool :=
  match s with
  | EmptyString => true
  | String a r => negb (Ascii.eqb a ".") && negb (Ascii.eqb a "/") && plain r
  end.

(** The commit of the catalog sync job. *)
Definition discoveries_commit (account : GitHubAccount) : command :=
  git_commit (name account) (email account) false false
             "Autogenerated Discovery document update" dartman_dir.

(** The events of the catalog sync job up to its commit, when the commands
    before the commit succeed. *)
Definition discoveries_events (account : GitHubAccount) (rc : Z) : list event :=
  [EDatastoreQuery; EMkdtemp; EMakedirs; ECall dartman_clone 0; ECall ln_s 0;
   ECall (go_run "src/main/updatedisco/main.go") 0;
   ECall (git_add "discoveries" dartman_dir) 0;
   ECall (discoveries_commit account) rc].

(** The aggregate commit of a run: message and tree. *)
Definition aggregate_commit (E : env) (v : locals) (t : tree) : commit :=
  {| commit_msg := commitmsg (today E) (added v) (updated v); commit_tree := t |}.

Module Scenario.

(** The catalog of [Example] with an empty Datastore. *)
Definition no_account : env :=
  {| datastore_accounts := [];
     today := today Example.catalog;
     index_items := index_items Example.catalog;
     discovery_glob := discovery_glob Example.catalog;
     discovery_document := discovery_document Example.catalog;
     generator := generator Example.catalog;
     sh := sh Example.catalog;
     sh_output := sh_output Example.catalog |}.

(** The catalog of [Example] where [git commit] finds nothing to commit in
    the catalog repository. *)
Definition unchanged_catalog : env :=
  {| datastore_accounts := datastore_accounts Example.catalog;
     today := today Example.catalog;
     index_items := index_items Example.catalog;
     discovery_glob := discovery_glob Example.catalog;
     discovery_document := discovery_document Example.catalog;
     generator := generator Example.catalog;
     sh := λ c, match c with
                | git_commit _ _ _ _ _ dartman_dir => 1%Z
                | _ => 0%Z
                end;
     sh_output := sh_output Example.catalog |}.

(** The catalog of [Example] where the generator fails on the second API. *)
Definition failing_generator : env :=
  {| datastore_accounts := datastore_accounts Example.catalog;
     today := today Example.catalog;
     index_items := index_items Example.catalog;
     discovery_glob := discovery_glob Example.catalog;
     discovery_document := discovery_document Example.catalog;
     generator := λ f, if decide (f = "discoveries/beta.v1.json") then None
                       else generator Example.catalog f;
     sh := sh Example.catalog;
     sh_output := sh_output Example.catalog |}.

End Scenario.

(** The events [t] a handler added: none (the request was rejected), the
    Datastore query alone (no credentials), or the query, the creation of
    the temporary directory, the work in it and, last, its removal. *)
Definition tidy (w : world) (run : (exn + string) * world) : Prop :=
  ∃ t, trace run.2 = (trace w ++ t)%list ∧ balanced t ∧
       (t = [] ∨ t = [EDatastoreQuery] ∨
        ∃ t', t = EDatastoreQuery :: EMkdtemp :: (t' ++ [ECleanup])%list).

(** The events of the release job up to [git log], when the commands before
    it succeed. *)
Definition release_events (latest_tag : string) : list event :=
  [EDatastoreQuery; EMkdtemp; ECall client_lib_clone 0; ECall git_describe 0;
   ECall (git_log latest_tag) 0].

(** A name without separator. *)
Fixpoint no_sep (s : string) : bool :=
  match s with
  | EmptyString => true
  | String a r => negb (Ascii.eqb a "/") && no_sep r
  end.

(** ** Strings *)

Lemma append_assoc (a b c : string) : (a +:+ b) +:+ c = a +:+ b +:+ c.
Proof.
  induction a as [|x a IH]; [done|].
  change (String x ((a +:+ b) +:+ c) = String x (a +:+ b +:+ c)).
  by rewrite IH.
Qed.

Lemma append_empty_r (a : string) : a +:+ "" = a.
Proof.
  induction a as [|x a IH]; [done|].
  change (String x (a +:+ "") = String x a). by rewrite IH.
Qed.

(** ** The summary message of the aggregate commit *)

Lemma commit_lines_lines (ids : list string) (msg : string) :
  commit_lines ids msg = msg +:+ id_lines ids.
Proof.
  revert msg. induction ids as [|x ids IH]; intros msg; simpl.
  - by rewrite append_empty_r.
  - unfold commit_lines in *. simpl. rewrite IH.
    by rewrite !append_assoc.
Qed.

Lemma sorted_elem_of (s : gset string) (x : string) : x ∈ Py.sorted s ↔ x ∈ s.
Proof.
  unfold Py.sorted. rewrite merge_sort_Permutation. apply elem_of_elements.
Qed.

Lemma sorted_nil (s : gset string) : Py.sorted s = [] ↔ s = ∅.
Proof.
  split.
  - intros H. apply set_eq. intros x. rewrite <- sorted_elem_of, H. set_solver.
  - intros ->. unfold Py.sorted. by rewrite elements_empty.
Qed.

Lemma sorted_section (header : string) (s : gset string) (msg : string) :
  (if decide (s = ∅) then msg
   else commit_lines (Py.sorted s) (msg +:+ Py.nl +:+ header +:+ Py.nl))
  = msg +:+ section_text header (Py.sorted s).
Proof.
  destruct (decide (s = ∅)) as [->|Hne].
  - unfold Py.sorted. rewrite elements_empty. simpl. by rewrite append_empty_r.
  - rewrite commit_lines_lines. unfold section_text.
    destruct (Py.sorted s) eqn:Hs.
    + by apply sorted_nil in Hs.
    + by rewrite !append_assoc.
Qed.

(** C5. The aggregate commit message is the title with the run date, then
    the "Add:" section and then the "Update:" section, where a section is
    empty for the empty set and otherwise lists the ids of the set, each once,
    in sorted order. *)
Theorem commitmsg_sections (today_ : string) (added_ updated_ : gset string) :
  commitmsg today_ added_ updated_
  = ("Autogenerated update (" +:+ today_ +:+ ")" +:+ Py.nl)
    +:+ section_text "Add:" (Py.sorted added_)
    +:+ section_text "Update:" (Py.sorted updated_)
  ∧ section_text "Add:" (Py.sorted ∅) = ""
  ∧ section_text "Update:" (Py.sorted ∅) = ""
  ∧ (∀ s : gset string,
       StronglySorted String.le (Py.sorted s) ∧ NoDup (Py.sorted s) ∧
       ∀ x, x ∈ Py.sorted s ↔ x ∈ s).
Proof.
  split; [|split; [|split]].
  - unfold commitmsg. rewrite !sorted_section. by rewrite !append_assoc.
  - unfold Py.sorted. by rewrite elements_empty.
  - unfold Py.sorted. by rewrite elements_empty.
  - intros s. split; [|split].
    + apply StronglySorted_merge_sort; apply _.
    + unfold Py.sorted. rewrite merge_sort_Permutation. apply NoDup_elements.
    + apply sorted_elem_of.
Qed.

(** ** The trusted trigger header *)

(** C8. A request without the [X-Appengine-Cron] header is rejected by each
    of the three endpoints with [abort(403)], and the world is left as it
    was: the trace gains no event, so no Datastore query, no filesystem
    operation and no external command is performed. *)
Theorem cron_requires_header (E : env) (req : request) (w : world) :
  headers_get req "X-Appengine-Cron" = None →
  cron_discoveries E req w = (inl (HTTPException 403), w) ∧
  cron_clients_php_update E req w = (inl (HTTPException 403), w) ∧
  cron_clients_php_release E req w = (inl (HTTPException 403), w).
Proof.
  intros H.
  unfold cron_discoveries, cron_clients_php_update, cron_clients_php_release.
  by rewrite H.
Qed.

(** ** The release tagger: strings *)

Lemma digits_spec (s d t : string) :
  VersionRe.digits s = (d, t) →
  s = d +:+ t ∧ digit_string d = true ∧
  match t with
  | EmptyString => True
  | String a _ => VersionRe.is_digit a = false
  end.
Proof.
  revert d t. induction s as [|a s IH]; intros d t; simpl.
  - intros [= <- <-]. done.
  - destruct (VersionRe.is_digit a) eqn:Ha.
    + destruct (VersionRe.digits s) as [d' t'] eqn:Hd. intros [= <- <-].
      destruct (IH d' t' eq_refl) as (-> & Hd' & Ht). simpl. by rewrite Ha.
    + intros [= <- <-]. done.
Qed.

Lemma digits_app (d t : string) :
  digit_string d = true →
  match t with
  | EmptyString => True
  | String a _ => VersionRe.is_digit a = false
  end →
  VersionRe.digits (d +:+ t) = (d, t).
Proof.
  intros Hd Ht. induction d as [|a d IH].
  - destruct t as [|b t]; [done|]. simpl. change ("" +:+ String b t) with (String b t).
    simpl. by rewrite Ht.
  - simpl in Hd. apply andb_true_iff in Hd as [Ha Hd].
    change (String a d +:+ t) with (String a (d +:+ t)). simpl.
    by rewrite Ha, (IH Hd).
Qed.

Lemma match_version_tag (major minor : string) :
  major ≠ "" → minor ≠ "" →
  digit_string major = true → digit_string minor = true →
  VersionRe.match' ("v" +:+ major +:+ "." +:+ minor)
  = Some {| VersionRe.group1 := "v" +:+ major; VersionRe.group2 := minor;
            VersionRe.after := "" |}.
Proof.
  intros Hmaj Hmin Dmaj Dmin.
  change ("v" +:+ major +:+ "." +:+ minor)
    with (String "v" (major +:+ String "." minor)).
  unfold VersionRe.match'. simpl Ascii.eqb. cbv iota.
  rewrite (digits_app major (String "." minor) Dmaj eq_refl).
  destruct major as [|a major]; [done|].
  simpl Ascii.eqb. cbv iota.
  rewrite <- (append_empty_r minor) at 1.
  rewrite (digits_app minor "" Dmin I).
  destruct minor as [|b minor]; [done|]. done.
Qed.

Lemma match_inv (s : string) (m : VersionRe.match_) :
  VersionRe.match' s = Some m →
  ∃ major,
    VersionRe.group1 m = "v" +:+ major ∧ major ≠ "" ∧
    VersionRe.group2 m ≠ "" ∧
    digit_string major = true ∧ digit_string (VersionRe.group2 m) = true ∧
    (VersionRe.after m = "" ∨ VersionRe.after m = Py.nl) ∧
    s = VersionRe.group1 m +:+ "." +:+ VersionRe.group2 m +:+ VersionRe.after m.
Proof.
  unfold VersionRe.match'. destruct s as [|a r]; [done|].
  destruct (Ascii.eqb_spec a "v") as [->|]; [|done].
  destruct (VersionRe.digits r) as [major t] eqn:Hmaj.
  apply digits_spec in Hmaj as (-> & Dmaj & _).
  destruct major as [|a1 major]; [done|].
  destruct t as [|b r']; [done|].
  destruct (Ascii.eqb_spec b ".") as [->|]; [|done].
  destruct (VersionRe.digits r') as [minor t] eqn:Hmin.
  apply digits_spec in Hmin as (-> & Dmin & _).
  destruct minor as [|b1 minor]; [done|].
  case_bool_decide as Ht; [|done]. intros [= <-]. simpl.
  exists (String a1 major). repeat split; done.
Qed.




Lemma uint_of_digit_string (d : string) :
  digit_string d = true → is_Some (NilEmpty.uint_of_string d).
Proof.
  induction d as [|a d IH]; simpl; [by eexists|].
  intros [Ha Hd]%andb_true_iff. destruct (IH Hd) as [u ->].
  destruct a as [[] [] [] [] [] [] [] []]; try done; by eexists.
Qed.

Lemma int_digit_string (d : string) :
  d ≠ "" → digit_string d = true → is_Some (Py.int d).
Proof.
  intros Hne Hd. destruct (uint_of_digit_string d Hd) as [u Hu].
  unfold Py.int. destruct d; [done|]. rewrite Hu. by eexists.
Qed.

(** [int(str(n)) == n]. *)
Lemma int_str (n : N) : Py.int (Py.str n) = Some n.
Proof.
  unfold Py.int, Py.str.
  destruct (NilEmpty.string_of_uint (N.to_uint n)) eqn:Hs.
  - pose proof (NilEmpty.usu (N.to_uint n)) as Hu. rewrite Hs in Hu.
    simpl in Hu. injection Hu as Hu. destruct n as [|p]; [done|].
    simpl in Hu. symmetry in Hu. by apply DecimalPos.Unsigned.to_uint_nonnil in Hu.
  - rewrite <- Hs, NilEmpty.usu. simpl. by rewrite DecimalN.Unsigned.of_to.
Qed.

Lemma sub_version_tag (major minor new : string) :
  major ≠ "" → minor ≠ "" →
  digit_string major = true → digit_string minor = true →
  VersionRe.sub new ("v" +:+ major +:+ "." +:+ minor)
  = "v" +:+ major +:+ "." +:+ new.
Proof.
  intros. unfold VersionRe.sub. rewrite match_version_tag by done. simpl.
  by rewrite !append_assoc, append_empty_r.
Qed.


(** ** The release tagger: the handler *)

Ltac unfold_M :=
  unfold mbind, M_bind, mret, M_ret, raise, emit, with_TemporaryDirectory,
    check_output, _call, _get_github_account in *.



(** ** The regeneration pipeline: one iteration *)

Lemma replace_writes (a : artifact) (t : tree) :
  <[art_name a := art_dir a]>
    (<[art_name a +:+ ".php" := File (art_file a)]>
       (delete (art_name a) (delete (art_name a +:+ ".php") t)))
  = writes a ∪ t.
Proof.
  apply map_eq. intros k. unfold writes.
  rewrite lookup_union, !lookup_insert, lookup_singleton, !lookup_delete.
  repeat case_decide; simplify_eq; try done;
    match goal with |- context [t !! ?i] => by destruct (t !! i) end.
Qed.

(** *** Steps of the monad *)

Lemma bind_inv {A B} (m : M A) (k : A → M B) (w w'' : world) (b : B) :
  (m ≫= k) w = (inr b, w'') →
  ∃ a w', m w = (inr a, w') ∧ k a w' = (inr b, w'').
Proof.
  unfold mbind, M_bind. destruct (m w) as [[e|a] w']; [done|]. eauto.
Qed.

Lemma bind_unfold {A B} (m : M A) (k : A → M B) (w : world) :
  (m ≫= k) w
  = match m w with
    | (inl e, w') => (inl e, w')
    | (inr a, w') => k a w'
    end.
Proof. done. Qed.

Lemma bind_ok {A B} (m : M A) (k : A → M B) (w w' : world) (a : A) :
  m w = (inr a, w') → (m ≫= k) w = k a w'.
Proof. unfold mbind, M_bind. by intros ->. Qed.

Lemma call_inv (E : env) (c : command) (w w' : world) (rc : Z) :
  _call E c true w = (inr rc, w') →
  rc = 0%Z ∧ (exec E c w).1 = 0%Z ∧ w' = log (ECall c 0) (exec E c w).2.
Proof.
  unfold _call. destruct (exec E c w) as [rc' wm]. simpl.
  destruct (rc' =? 0)%Z eqn:Hrc; [|done].
  apply Z.eqb_eq in Hrc as ->. by intros [= <- <-].
Qed.

Lemma call_ok (E : env) (c : command) (check : bool) (w : world) :
  (exec E c w).1 = 0%Z →
  _call E c check w = (inr 0%Z, log (ECall c 0) (exec E c w).2).
Proof.
  unfold _call. destruct (exec E c w) as [rc wm]. simpl. intros ->.
  by rewrite andb_false_r.
Qed.

Lemma with_inv {A} (m : M A) (w w' : world) (a : A) :
  with_TemporaryDirectory m w = (inr a, w') →
  ∃ wm, m (log EMkdtemp w) = (inr a, wm) ∧ w' = log ECleanup wm.
Proof.
  unfold with_TemporaryDirectory. destruct (m (log EMkdtemp w)) as [r wm].
  intros [= -> <-]. eauto.
Qed.

(** The per-descriptor commit: return code 1 when the working copy is the
    tree of [HEAD], else a new commit and return code 0. *)
Lemma descriptor_commit_call (E : env) (account : GitHubAccount) (w : world) :
  let c := git_commit (name account) (email account) true true "" client_lib_dir in
  _call E c false w
  = if decide (service w = head_tree (commits w))
    then (inr 1%Z, log (ECall c 1) w)
    else (inr 0%Z,
          log (ECall c 0)
            (set_commits ({| commit_msg := ""; commit_tree := service w |}
                          :: commits w) w)).
Proof.
  intros c. unfold _call. cbn [exec c].
  destruct (decide (service w = head_tree (commits w))); [done|].
  by destruct (decide ("" = "" ∧ true = false)) as [[_ ?]|].
Qed.

(** *** The replacement of an artifact *)

Lemma regenerate_inv (E : env) (filename : string) (w w' : world) (b : bool) :
  regenerate E filename w = (inr b, w') →
  ∃ a, artifact_for E filename = Some a ∧
       b = bool_decide (is_Some (service w !! (art_name a +:+ ".php"))) ∧
       service w' = writes a ∪ service w ∧ commits w' = commits w ∧
       remote w' = remote w ∧
       trace w' = (trace w ++ [EMkdtemp; ECall (generate_library filename) 0;
                    EListdir; EExists (art_name a +:+ ".php");
                    ECall (rm_rf (art_name a)) 0; ECall (cp (art_name a)) 0;
                    ECall (cp_r (art_name a)) 0; ECleanup])%list.
Proof.
  unfold regenerate. intros (wm & H & ->)%with_inv.
  apply bind_inv in H as (rc & w1 & Hgen & H).
  apply call_inv in Hgen as (_ & Hgen & ->).
  apply bind_inv in H as (dirs & w2 & Hdirs & H).
  unfold listdir in Hdirs. injection Hdirs as <- <-.
  unfold artifact_for, artifact_of.
  cbn [exec] in *.
  destruct (generator E filename) as [out|] eqn:Hg; cbn in Hgen |- *. 2:{ discriminate Hgen. }
  cbn [scratch log set_scratch snd] in H.
  destruct (out.*1) as [|d0 ds] eqn:Hd; [discriminate H|].
  generalize dependent (Py.splitext d0). intros n H.
  apply bind_inv in H as (ex & w3 & Hex & H).
  unfold path_exists in Hex. injection Hex as <- <-.
  apply bind_inv in H as (rc1 & w4 & Hrm & H).
  apply call_inv in Hrm as (_ & _ & ->).
  apply bind_inv in H as (rc2 & w5 & Hcp & H).
  apply call_inv in Hcp as (_ & Hcp & ->).
  apply bind_inv in H as (rc3 & w6 & Hcpr & H).
  apply call_inv in Hcpr as (_ & Hcpr & ->).
  unfold mret, M_ret in H. injection H as <- <-.
  cbn [exec scratch service log set_service set_scratch fst snd] in Hcp, Hcpr |- *.
  destruct (scratch_lookup out (n +:+ ".php")) as [[x|x]|] eqn:Hf; [|done|done].
  cbn [exec scratch service log set_service set_scratch fst snd] in Hcpr |- *.
  destruct (scratch_lookup out n) as [y|] eqn:Hy; [|done].
  exists {| art_name := n; art_file := x; art_dir := y |}.
  cbn [exec scratch service log set_service set_scratch fst snd trace commits remote art_name art_file art_dir].
  split; [done|]. split; [done|]. split.
  { apply (replace_writes {| art_name := n; art_file := x; art_dir := y |}). }
  split; [done|]. split; [done|]. by rewrite <- !app_assoc.
Qed.

Lemma regenerate_ok (E : env) (filename : string) (w : world) (a : artifact) :
  artifact_for E filename = Some a →
  ∃ w', regenerate E filename w
        = (inr (bool_decide (is_Some (service w !! (art_name a +:+ ".php")))), w') ∧
        service w' = writes a ∪ service w ∧ commits w' = commits w ∧
        remote w' = remote w ∧
        trace w' = (trace w ++ [EMkdtemp; ECall (generate_library filename) 0;
                     EListdir; EExists (art_name a +:+ ".php");
                     ECall (rm_rf (art_name a)) 0; ECall (cp (art_name a)) 0;
                     ECall (cp_r (art_name a)) 0; ECleanup])%list.
Proof.
  unfold artifact_for, artifact_of. intros Ha.
  destruct (generator E filename) as [out|] eqn:Hg; [|done]. cbn in Ha.
  destruct (out.*1) as [|d0 ds] eqn:Hd; [done|].
  destruct (scratch_lookup out (Py.splitext d0 +:+ ".php")) as [[x|x]|] eqn:Hf;
    [|done|done].
  destruct (scratch_lookup out (Py.splitext d0)) as [y|] eqn:Hy; [|done].
  injection Ha as <-. cbn [art_name art_file art_dir].
  unfold regenerate, with_TemporaryDirectory.
  erewrite bind_ok; [|apply call_ok; cbn [exec]; by rewrite Hg].
  cbn [exec]. rewrite Hg. cbn [snd].
  erewrite bind_ok; [|reflexivity].
  cbn [scratch log set_scratch]. rewrite Hd.
  generalize dependent (Py.splitext d0). intros n Hf Hy.
  erewrite bind_ok; [|reflexivity].
  erewrite bind_ok; [|by apply call_ok].
  erewrite bind_ok;
    [|apply call_ok; cbn [exec scratch log set_service set_scratch snd];
      by rewrite Hf].
  erewrite bind_ok;
    [|apply call_ok; cbn [exec scratch log set_service set_scratch snd];
      rewrite Hf; cbn [exec scratch log set_service set_scratch snd];
      by rewrite Hy].
  unfold mret, M_ret. eexists. split; [reflexivity|].
  cbn [exec scratch service log set_service set_scratch fst snd trace commits remote].
  rewrite Hf.
  cbn [exec scratch service log set_service set_scratch fst snd trace commits remote].
  rewrite Hy.
  cbn [exec scratch service log set_service set_scratch fst snd trace commits remote].
  split.
  { apply (replace_writes {| art_name := n; art_file := x; art_dir := y |}). }
  split; [done|]. split; [done|]. by rewrite <- !app_assoc.
Qed.

Section Pipeline.
Context (E : env) (account : GitHubAccount) (preferred : gmap string bool).

(** What an iteration that returns normally has done: skipped a descriptor
    already seen, excluded one, or generated and replaced its artifact. *)
Lemma body_inv (filename : string) (v v' : locals) (w w' : world) :
  update_body E account preferred filename v w = (inr v', w') →
  let id_ := doc_id (discovery_document E filename) in
  let name_ := doc_name (discovery_document E filename) in
  (id_ ∈ processed v ∧ v' = v ∧ w' = log (EOpen filename) w) ∨
  ((id_ ∉ processed v) ∧ (name_ = "discovery" ∨ preferred !! id_ = Some false) ∧
   v' = set_processed ({[id_]} ∪ processed v) v ∧ w' = log (EOpen filename) w) ∨
  ((id_ ∉ processed v) ∧ name_ ≠ "discovery" ∧ preferred !! id_ = Some true ∧
   ∃ (a : artifact) (rc : Z),
     artifact_for E filename = Some a ∧
     sh E (git_add "src" client_lib_dir) = 0%Z ∧
     service w' = writes a ∪ service w ∧
     remote w' = remote w ∧
     trace w' = (trace w ++ generation_events account filename a rc)%list ∧
     ((rc = 0%Z ∧ service w' ≠ head_tree (commits w) ∧
       commits w' = {| commit_msg := ""; commit_tree := service w' |} :: commits w ∧
       v' = committed id_
              (bool_decide (is_Some (service w !! (art_name a +:+ ".php")))) v) ∨
      (rc = 1%Z ∧ service w' = head_tree (commits w) ∧
       commits w' = commits w ∧
       v' = set_processed ({[id_]} ∪ processed v) v))).
Proof.
  intros H id_ name_. unfold update_body in H.
  apply bind_inv in H as (root & w1 & Hopen & H).
  unfold open_json, emit, mbind, M_bind, mret, M_ret in Hopen.
  injection Hopen as <- <-. cbv zeta in H. fold id_ name_ in H.
  destruct (decide (id_ ∈ processed v)) as [Hin|Hin].
  { left. unfold mret, M_ret in H. by injection H as <- <-. }
  right. destruct (decide (name_ = "discovery")) as [Hn|Hn].
  { left. unfold mret, M_ret in H. injection H as <- <-. eauto. }
  destruct (preferred !! id_) as [[]|] eqn:Hp.
  3:{ discriminate H. }
  2:{ left. unfold mret, M_ret in H. injection H as <- <-. eauto. }
  right. split; [done|]. split; [done|]. split; [done|].
  apply bind_inv in H as (ex & w2 & Hreg & H).
  apply regenerate_inv in Hreg as (a & Ha & -> & Hs2 & Hc2 & Hr2 & Ht2).
  cbn [service commits remote trace log] in Hs2, Hc2, Hr2, Ht2, H.
  apply bind_inv in H as (rc0 & w3 & Hadd & H).
  apply call_inv in Hadd as (_ & Hadd & ->). cbn [exec fst snd] in Hadd, H.
  apply bind_inv in H as (rc & w4 & Hcommit & H).
  rewrite descriptor_commit_call in Hcommit.
  cbn [service commits log] in Hcommit.
  exists a, rc. split; [done|]. split; [done|].
  destruct (decide (service w2 = head_tree (commits w2))) as [Heq|Hne];
    injection Hcommit as <- <-; unfold mret, M_ret in H; cbn in H;
    injection H as <- <-; cbn [service commits remote trace log set_commits].
  - rewrite Ht2, Hr2, <- Hs2, <- Hc2. split; [done|]. split; [done|].
    split; [unfold generation_events; by rewrite <- !app_assoc|]. by right.
  - rewrite Ht2, Hr2, <- Hs2, <- Hc2. split; [done|]. split; [done|].
    split; [unfold generation_events; by rewrite <- !app_assoc|]. left.
    repeat split; try done.
Qed.

(** A descriptor whose id is already in [processed] is skipped: the loop
    variables and the client library are untouched, only the file is read. *)
Lemma body_seen (filename : string) (v : locals) (w : world) :
  doc_id (discovery_document E filename) ∈ processed v →
  update_body E account preferred filename v w = (inr v, log (EOpen filename) w).
Proof.
  intros Hin. unfold update_body, open_json. unfold_M. simpl.
  by rewrite decide_True.
Qed.

Lemma body_excluded (filename : string) (v : locals) (w : world) :
  let id_ := doc_id (discovery_document E filename) in
  id_ ∉ processed v →
  doc_name (discovery_document E filename) = "discovery" ∨
  preferred !! id_ = Some false →
  update_body E account preferred filename v w
  = (inr (set_processed ({[id_]} ∪ processed v) v), log (EOpen filename) w).
Proof.
  intros id_ Hin Hex. unfold update_body, open_json. unfold_M. simpl.
  fold id_. rewrite decide_False by done.
  destruct (decide (doc_name (discovery_document E filename) = "discovery"));
    [done|].
  destruct Hex as [Hex|Hex]; [done|]. by rewrite Hex.
Qed.

Lemma body_KeyError (filename : string) (v : locals) (w : world) :
  let id_ := doc_id (discovery_document E filename) in
  id_ ∉ processed v →
  doc_name (discovery_document E filename) ≠ "discovery" →
  preferred !! id_ = None →
  update_body E account preferred filename v w = (inl (KeyError id_), log (EOpen filename) w).
Proof.
  intros id_ Hin Hn Hp. unfold update_body, open_json. unfold_M. simpl.
  fold id_. by rewrite decide_False, decide_False, Hp by done.
Qed.

(** Regenerating an artifact whose entries the working copy and [HEAD]
    already hold changes no tree, and the commit finds nothing to commit. *)
Lemma body_unchanged (filename : string) (v : locals) (w : world) (a : artifact) :
  let id_ := doc_id (discovery_document E filename) in
  id_ ∉ processed v →
  doc_name (discovery_document E filename) ≠ "discovery" →
  preferred !! id_ = Some true →
  artifact_for E filename = Some a →
  sh E (git_add "src" client_lib_dir) = 0%Z →
  writes a ∪ service w = service w →
  service w = head_tree (commits w) →
  ∃ w', update_body E account preferred filename v w = (inr (set_processed ({[id_]} ∪ processed v) v), w') ∧
        service w' = service w ∧ commits w' = commits w ∧ remote w' = remote w ∧
        trace w' = (trace w ++ generation_events account filename a 1)%list.
Proof.
  intros id_ Hin Hn Hp Ha Hadd Hw Hhead.
  destruct (regenerate_ok E filename (log (EOpen filename) w) a Ha)
    as (w2 & Hreg & Hs2 & Hc2 & Hr2 & Ht2).
  cbn [service commits remote trace log] in Hs2, Hc2, Hr2, Ht2, Hreg.
  unfold update_body.
  erewrite bind_ok; [|reflexivity]. cbv zeta. fold id_.
  rewrite decide_False, decide_False, Hp by done.
  erewrite bind_ok; [|exact Hreg].
  erewrite bind_ok; [|by apply call_ok]. cbn [exec snd].
  rewrite bind_unfold, descriptor_commit_call.
  cbn [service commits log].
  rewrite decide_True by (by rewrite Hs2, Hw, Hc2).
  cbn. unfold mret, M_ret. eexists. split; [reflexivity|].
  cbn [service commits remote trace log].
  rewrite Hs2, Hw, Hc2, Hr2, Ht2. repeat split; try done.
  unfold generation_events. by rewrite <- !app_assoc.
Qed.

End Pipeline.

(** ** The regeneration pipeline: the loop *)

Lemma for_app {A S} (l1 l2 : list A) (body : A → S → M S) (s : S) (w : world) :
  for_ (l1 ++ l2)%list body s w
  = match for_ l1 body s w with
    | (inl e, w') => (inl e, w')
    | (inr s', w') => for_ l2 body s' w'
    end.
Proof.
  revert s w. induction l1 as [|x l1 IH]; intros s w; simpl; [done|].
  unfold mbind, M_bind. destruct (body x s w) as [[e|s'] w']; [done|]. apply IH.
Qed.

Lemma for_cons_inv {A S} (x : A) (l : list A) (body : A → S → M S)
    (s s' : S) (w w' : world) :
  for_ (x :: l) body s w = (inr s', w') →
  ∃ sm wm, body x s w = (inr sm, wm) ∧ for_ l body sm wm = (inr s', w').
Proof.
  simpl. unfold mbind, M_bind.
  destruct (body x s w) as [[e|sm] wm]; [done|]. eauto.
Qed.

(** An invariant of the body holds after a loop that ends normally. *)
Lemma for_invariant {A S} (P : S → world → Prop) (body : A → S → M S)
    (l : list A) (s s' : S) (w w' : world) :
  (∀ x s w s' w', P s w → body x s w = (inr s', w') → P s' w') →
  P s w → for_ l body s w = (inr s', w') → P s' w'.
Proof.
  intros Hstep. revert s w. induction l as [|x l IH]; intros s w HP; simpl.
  - unfold mret, M_ret. by intros [= <- <-].
  - intros (sm & wm & Hb & Hl)%for_cons_inv. eauto.
Qed.

Section Loop.
Context (E : env) (account : GitHubAccount) (preferred : gmap string bool).

(** Every iteration that returns normally leaves the id of its descriptor in
    [processed], whatever it did with the descriptor. *)
Lemma body_processed (filename : string) (v v' : locals) (w w' : world) :
  (update_body E account preferred) filename v w = (inr v', w') →
  processed v' = {[doc_id (discovery_document E filename)]} ∪ processed v.
Proof.
  intros H. apply body_inv in H as [(Hin & -> & _)|[(_ & _ & -> & _)|H]].
  - set_solver.
  - done.
  - destruct H as (_ & _ & _ & a & rc & _ & _ & _ & _ & _ & [H|H]);
      by destruct H as (_ & _ & _ & ->).
Qed.

Lemma loop_processed (l : list string) (v v' : locals) (w w' : world) :
  for_ l (update_body E account preferred) v w = (inr v', w') →
  processed v ⊆ processed v' ∧ ∀ f, f ∈ l → doc_id (discovery_document E f) ∈ processed v'.
Proof.
  revert v w. induction l as [|x l IH]; intros v w; simpl.
  - unfold mret, M_ret. intros [= <- <-]. split; [done|]. by intros f ?%elem_of_nil.
  - intros (vm & wm & Hb & Hl)%for_cons_inv.
    apply body_processed in Hb. destruct (IH _ _ Hl) as [Hsub Hall].
    split; [set_solver|]. intros f [->|Hf]%elem_of_cons; [set_solver|by apply Hall].
Qed.

Lemma body_classified (filename : string) (v v' : locals) (w w' : world) :
  (update_body E account preferred) filename v w = (inr v', w') →
  classified v →
  classified v' ∧
  ∀ i, i ∈ processed v →
       (i ∈ added v' ↔ i ∈ added v) ∧ (i ∈ updated v' ↔ i ∈ updated v).
Proof.
  unfold classified. intros H [Hsub Hdisj].
  apply body_inv in H as [(Hin & -> & _)|[(Hin & _ & -> & _)|H]].
  - done.
  - simpl. split; [set_solver|done].
  - destruct H as (Hin & _ & _ & a & rc & _ & _ & _ & _ & _ & [H|H]);
      destruct H as (_ & _ & _ & ->); simpl.
    + destruct (bool_decide _); set_solver.
    + split; [set_solver|done].
Qed.

Lemma loop_classified (l : list string) (v v' : locals) (w w' : world) :
  for_ l (update_body E account preferred) v w = (inr v', w') →
  classified v →
  classified v' ∧
  ∀ i, i ∈ processed v →
       (i ∈ added v' ↔ i ∈ added v) ∧ (i ∈ updated v' ↔ i ∈ updated v).
Proof.
  revert v w. induction l as [|x l IH]; intros v w; simpl.
  - unfold mret, M_ret. by intros [= <- <-].
  - intros (vm & wm & Hb & Hl)%for_cons_inv Hc.
    pose proof (body_processed _ _ _ _ _ Hb) as Hp.
    destruct (body_classified _ _ _ _ _ Hb Hc) as [Hcm Hkeep].
    destruct (IH _ _ Hl Hcm) as [Hc' Hkeep'].
    split; [done|]. intros i Hi.
    destruct (Hkeep i Hi) as [? ?].
    destruct (Hkeep' i) as [? ?]; [set_solver|]. split; etrans; eauto.
Qed.

Lemma classified_locals0 : classified locals0.
Proof. unfold classified, locals0. simpl. set_solver. Qed.

End Loop.

(** ** The regeneration pipeline: dedup guard, exclusion filter, classification *)

(** C1. Once a descriptor has been visited in a run, whether it was
    generated or excluded, its id is in [processed]; every later descriptor
    with the same id is skipped, whatever it holds: the iteration only
    reads the file and leaves the loop variables and the client library as
    they were.  An excluded descriptor is recorded too: the iteration that
    excludes it returns with its id added to [processed]. *)
Theorem dedup_by_id (E : env) (account : GitHubAccount)
    (preferred : gmap string bool) (pre : list string)
    (v0 v : locals) (w0 w : world) :
  for_ pre (update_body E account preferred) v0 w0 = (inr v, w) →
  (∀ f, f ∈ pre → doc_id (discovery_document E f) ∈ processed v) ∧
  (∀ f filename,
      f ∈ pre →
      doc_id (discovery_document E filename) = doc_id (discovery_document E f) →
      update_body E account preferred filename v w
      = (inr v, log (EOpen filename) w)) ∧
  (∀ filename,
      let id_ := doc_id (discovery_document E filename) in
      id_ ∉ processed v →
      doc_name (discovery_document E filename) = "discovery" ∨
      preferred !! id_ = Some false →
      ∃ v', update_body E account preferred filename v w
            = (inr v', log (EOpen filename) w) ∧
            processed v' = {[id_]} ∪ processed v).
Proof.
  intros Hloop. destruct (loop_processed _ _ _ _ _ _ _ _ Hloop) as [_ Hall].
  split; [done|]. split.
  - intros f filename Hf Hid. apply body_seen. rewrite Hid. by apply Hall.
  - intros filename id_ Hin Hex. eexists. split; [by apply body_excluded|done].
Qed.

(** C3. A descriptor named [discovery], or whose id the dictionary
    [preferred] (index entries, then the two overrides) maps to false, is
    skipped: the iteration returns normally, its only effect is reading the
    descriptor file (no generator call, no change to the client library),
    and the classification sets and the commit count are unchanged. *)
Theorem excluded_not_generated (E : env) (account : GitHubAccount)
    (filename : string) (v : locals) (w : world) :
  let preferred := preferred_of (index_items E) in
  let id_ := doc_id (discovery_document E filename) in
  doc_name (discovery_document E filename) = "discovery" ∨
  preferred !! id_ = Some false →
  ∃ v', update_body E account preferred filename v w
        = (inr v', log (EOpen filename) w) ∧
        added v' = added v ∧ updated v' = updated v ∧
        commit_count v' = commit_count v ∧ returncode v' = returncode v.
Proof.
  intros preferred id_ Hex.
  destruct (decide (id_ ∈ processed v)) as [Hin|Hin].
  - exists v. split; [by apply body_seen|done].
  - eexists. split; [by apply body_excluded|done].
Qed.

(** C2. When the per-descriptor commit of an iteration succeeds (among
    the events of the iteration is the command
    [git commit -a --allow-empty-message -m ""] with return code 0), the
    descriptor has an artifact, and at the end of the loop its id is in
    [added] exactly when the target tree had no file [<name>.php] for the
    artifact's name at the start of that iteration, and in [updated]
    exactly when it had one; the two sets are disjoint, and the iteration
    has counted the commit. *)
Theorem classification_exact (E : env) (account : GitHubAccount)
    (preferred : gmap string bool) (pre post : list string) (filename : string)
    (v1 v2 v3 : locals) (w0 w1 w2 w3 : world) (t : list event) :
  for_ pre (update_body E account preferred) locals0 w0 = (inr v1, w1) →
  update_body E account preferred filename v1 w1 = (inr v2, w2) →
  trace w2 = (trace w1 ++ t)%list →
  ECall (git_commit (name account) (email account) true true "" client_lib_dir) 0
    ∈ t →
  for_ post (update_body E account preferred) v2 w2 = (inr v3, w3) →
  ∃ a, artifact_for E filename = Some a ∧
       let id_ := doc_id (discovery_document E filename) in
       let existed := is_Some (service w1 !! (art_name a +:+ ".php")) in
       (id_ ∈ added v3 ↔ ¬ existed) ∧
       (id_ ∈ updated v3 ↔ existed) ∧
       added v3 ## updated v3 ∧
       commit_count v2 = S (commit_count v1).
Proof.
  intros Hpre Hbody Ht Hev Hpost.
  destruct (loop_classified _ _ _ _ _ _ _ _ Hpre classified_locals0) as [Hc1 _].
  destruct (body_classified _ _ _ _ _ _ _ _ Hbody Hc1) as [Hc2 _].
  destruct (loop_classified _ _ _ _ _ _ _ _ Hpost Hc2) as [[_ Hdisj] Hkeep].
  pose proof (body_processed _ _ _ _ _ _ _ _ Hbody) as Hp2.
  apply body_inv in Hbody as [(_ & _ & ->)|[(_ & _ & _ & ->)|H]].
  1,2: cbn [trace log] in Ht; apply app_inv_head in Ht as <-;
       apply list_elem_of_singleton in Hev; discriminate Hev.
  destruct H as (Hin & _ & _ & a & rc & Ha & _ & _ & _ & Htr & Hrc).
  rewrite Htr in Ht. apply app_inv_head in Ht as <-.
  assert (rc = 0%Z) as ->.
  { unfold generation_events in Hev.
    repeat (apply elem_of_cons in Hev as [Hev|Hev]; [discriminate Hev || idtac|]).
    - by injection Hev as <-.
    - by apply elem_of_nil in Hev. }
  destruct Hrc as [(_ & _ & _ & ->)|(Hrc & _)]; [|discriminate Hrc].
  exists a. split; [done|]. simpl.
  destruct (Hkeep (doc_id (discovery_document E filename))) as [Hadd Hupd];
    [set_solver|].
  destruct Hc1 as [Hsub1 _]. split; [|split; [|split; [done|lia]]].
  - rewrite Hadd. simpl. case_bool_decide; set_solver.
  - rewrite Hupd. simpl. case_bool_decide; set_solver.
Qed.

(** ** The regeneration pipeline: the setup and the preferred dictionary *)

Lemma preferred_foldl_notin (items : list api) (m : gmap string bool) (i : string) :
  i ∉ api_id <$> items →
  foldl (λ p a, <[api_id a := api_preferred a]> p) m items !! i = m !! i.
Proof.
  revert m. induction items as [|a items IH]; intros m Hi; simpl; [done|].
  rewrite fmap_cons in Hi. apply not_elem_of_cons in Hi as [Hne Hi].
  rewrite IH by done. by rewrite lookup_insert_ne.
Qed.

Lemma preferred_of_None (items : list api) (i : string) :
  i ∉ api_id <$> items →
  i ≠ "admin:directory_v1" → i ≠ "admin:datatransfer_v1" →
  preferred_of items !! i = None.
Proof.
  intros Hi H1 H2. unfold preferred_of.
  rewrite !lookup_insert_ne by done. by rewrite preferred_foldl_notin.
Qed.

Lemma pipeline_setup_inv (E : env) (w w' : world) (p : gmap string bool) :
  pipeline_setup E w = (inr p, w') →
  p = preferred_of (index_items E) ∧
  sh E dartman_clone = 0%Z ∧ sh E client_lib_clone = 0%Z ∧
  sh E virtualenv = 0%Z ∧ sh E setup_py_install = 0%Z ∧
  service w' = head_tree (remote w) ∧ commits w' = remote w ∧
  remote w' = remote w ∧
  trace w' = (trace w ++ setup_events)%list.
Proof.
  unfold pipeline_setup. unfold_M. simpl.
  fold dartman_clone client_lib_clone.
  destruct (sh E dartman_clone =? 0)%Z eqn:H1; simpl; [|done].
  destruct (decide (sh E client_lib_clone = 0%Z)) as [H2|H2]; simpl.
  2:{ apply Z.eqb_neq in H2. by rewrite H2. }
  destruct (sh E virtualenv =? 0)%Z eqn:H3; simpl; [|done].
  destruct (sh E setup_py_install =? 0)%Z eqn:H4; simpl; [|done].
  intros [= <- <-]. simpl.
  apply Z.eqb_eq in H1, H3, H4. repeat split; try done.
  unfold setup_events. rewrite H1, H3, H4. by rewrite <- !app_assoc.
Qed.

Lemma pipeline_setup_ok (E : env) (w : world) :
  sh E dartman_clone = 0%Z → sh E client_lib_clone = 0%Z →
  sh E virtualenv = 0%Z → sh E setup_py_install = 0%Z →
  ∃ w', pipeline_setup E w = (inr (preferred_of (index_items E)), w') ∧
        service w' = head_tree (remote w) ∧ commits w' = remote w ∧
        remote w' = remote w ∧
        trace w' = (trace w ++ setup_events)%list.
Proof.
  intros H1 H2 H3 H4. unfold pipeline_setup. unfold_M. simpl.
  fold dartman_clone client_lib_clone.
  rewrite H1. simpl. rewrite decide_True by done. simpl.
  rewrite H3. simpl. rewrite H4. simpl.
  eexists. split; [done|]. simpl. repeat split; try done.
  unfold setup_events. by rewrite <- !app_assoc.
Qed.

(** C10. When the loop reaches a descriptor that passes the dedup guard, is
    not named [discovery] and whose id is neither an id of the index nor one
    of the two overridden ids, the lookup [preferred[id_]] raises
    [KeyError]: the exception leaves the handler, after the descriptor file
    was read and the temporary directory removed. *)
Theorem missing_preferred_key (E : env) (req : request) (w ws w1 : world)
    (account : GitHubAccount) (accounts : list GitHubAccount)
    (pre post : list string) (filename : string)
    (p : gmap string bool) (v1 : locals) :
  let id_ := doc_id (discovery_document E filename) in
  is_Some (headers_get req "X-Appengine-Cron") →
  datastore_accounts E = account :: accounts →
  discovery_document_filenames E = (pre ++ filename :: post)%list →
  pipeline_setup E (log EMkdtemp (log EDatastoreQuery w)) = (inr p, ws) →
  for_ pre (update_body E account p) locals0 ws = (inr v1, w1) →
  id_ ∉ processed v1 →
  doc_name (discovery_document E filename) ≠ "discovery" →
  id_ ∉ api_id <$> index_items E →
  id_ ≠ "admin:directory_v1" → id_ ≠ "admin:datatransfer_v1" →
  update_body E account p filename v1 w1
  = (inl (KeyError id_), log (EOpen filename) w1) ∧
  cron_clients_php_update E req w
  = (inl (KeyError id_), log ECleanup (log (EOpen filename) w1)).
Proof.
  intros id_ [h Hh] Hacc Hfiles Hsetup Hpre Hin Hname Hidx Ho1 Ho2.
  pose proof (pipeline_setup_inv _ _ _ _ Hsetup) as (-> & _).
  assert (update_body E account (preferred_of (index_items E)) filename v1 w1
          = (inl (KeyError id_), log (EOpen filename) w1)) as Hbody.
  { apply body_KeyError; [done..|]. by apply preferred_of_None. }
  split; [done|].
  unfold cron_clients_php_update. rewrite Hh.
  unfold _get_github_account, regeneration_pipeline, with_TemporaryDirectory,
    mbind, M_bind, emit. rewrite Hacc. unfold mret at 1, M_ret at 1.
  rewrite Hsetup, Hfiles, for_app, Hpre. simpl.
  unfold mbind, M_bind. by rewrite Hbody.
Qed.

(** ** The regeneration pipeline: segments of the loop *)

Lemma descriptor_commits_app (t1 t2 : list event) :
  descriptor_commits (t1 ++ t2) = descriptor_commits t1 + descriptor_commits t2.
Proof. unfold descriptor_commits. by rewrite List.filter_app, length_app. Qed.

Lemma generated_files_app (t1 t2 : list event) :
  generated_files (t1 ++ t2) = (generated_files t1 ++ generated_files t2)%list.
Proof. apply omap_app. Qed.

Lemma descriptor_commits_quiet (t : list event) :
  Forall (λ e, is_descriptor_commit e = false) t → descriptor_commits t = 0.
Proof.
  unfold descriptor_commits. induction 1 as [|e t He _ IH]; [done|].
  simpl. by rewrite He.
Qed.

(** An artifact compatible with [a] survives the replacement of [a]. *)
Lemma compatible_keeps (a b : artifact) (m : tree) :
  compatible a b → writes b ⊆ m → writes b ⊆ writes a ∪ m.
Proof.
  intros Hc Hb. apply map_subseteq_spec. intros k x Hk.
  apply lookup_union_Some_raw.
  destruct (writes a !! k) as [y|] eqn:Ha.
  - left. f_equal.
    assert ((writes a ∪ writes b) !! k = Some y) as H1.
    { apply lookup_union_Some_raw. by left. }
    assert ((writes b ∪ writes a) !! k = Some x) as H2.
    { apply lookup_union_Some_raw. by left. }
    rewrite Hc in H1. congruence.
  - right. split; [done|]. by eapply lookup_weaken.
Qed.

Lemma writes_present (a : artifact) (m : tree) :
  writes a ⊆ m → writes a ∪ m = m.
Proof. intros H. by apply map_subseteq_union. Qed.

Lemma segment_refl (E : env) (v : locals) (w : world) : segment E v w v w [].
Proof.
  split; simpl; try done. by rewrite app_nil_r.
Qed.

Lemma segment_trans (E : env) (v vm v' : locals) (w wm w' : world)
    (t1 t2 : list event) :
  segment E v w vm wm t1 → segment E vm wm v' w' t2 →
  segment E v w v' w' (t1 ++ t2)%list.
Proof.
  intros S1 S2. split.
  - rewrite (seg_trace _ _ _ _ _ _ S2), (seg_trace _ _ _ _ _ _ S1).
    by rewrite app_assoc.
  - rewrite (seg_remote _ _ _ _ _ _ S2). apply S1.
  - rewrite descriptor_commits_app, (seg_count _ _ _ _ _ _ S2),
      (seg_count _ _ _ _ _ _ S1). lia.
  - rewrite descriptor_commits_app. intros H.
    destruct (seg_none _ _ _ _ _ _ S1) as [Hc1 Hr1]; [lia|].
    destruct (seg_none _ _ _ _ _ _ S2) as [Hc2 Hr2]; [lia|].
    split; congruence.
  - rewrite descriptor_commits_app. intros H.
    destruct (decide (descriptor_commits t2 = 0)) as [H2|H2].
    + destruct (seg_none _ _ _ _ _ _ S2 H2) as [_ ->]. apply S1. lia.
    + by apply S2.
  - apply Forall_app. split; [apply S1|apply S2].
  - intros H. apply S2. by apply S1.
  - intros b Hb. rewrite generated_files_app. intros [H1 H2]%Forall_app.
    eapply seg_keeps; [exact S2| |done]. eapply seg_keeps; [exact S1|done..].
  - unfold pairwise_compatible. rewrite generated_files_app.
    intros [H1 H2]%Forall_app. apply Forall_app. split.
    + assert (pairwise_compatible E (generated_files t1)) as Hp1.
      { eapply Forall_impl; [exact H1|]. by intros f [? _]%Forall_app. }
      pose proof (seg_writes _ _ _ _ _ _ S1 Hp1) as Hw1.
      apply Forall_forall. intros f Hf a Ha.
      eapply seg_keeps; [exact S2|..].
      * rewrite Forall_forall in Hw1. by eapply Hw1.
      * apply Forall_forall. intros g Hg b Hb.
        rewrite Forall_forall in H2. specialize (H2 g Hg).
        apply Forall_app in H2 as [H2 _]. rewrite Forall_forall in H2.
        specialize (H2 f Hf). unfold compatible_files in H2.
        by rewrite Hb, Ha in H2.
    + apply S2. eapply Forall_impl; [exact H2|]. by intros f [_ ?]%Forall_app.
Qed.

Lemma generation_events_commits (account : GitHubAccount) (filename : string)
    (a : artifact) (rc : Z) :
  descriptor_commits (generation_events account filename a rc)
  = if decide (rc = 0%Z) then 1 else 0.
Proof. unfold descriptor_commits. simpl. by destruct rc. Qed.

Lemma generation_events_files (account : GitHubAccount) (filename : string)
    (a : artifact) (rc : Z) :
  generated_files (generation_events account filename a rc) = [filename].
Proof. done. Qed.

Lemma generation_events_quiet (account : GitHubAccount) (filename : string)
    (a : artifact) (rc : Z) :
  Forall (λ e, publishes e = false) (generation_events account filename a rc).
Proof. unfold generation_events. repeat constructor. Qed.

Section Segments.
Context (E : env) (account : GitHubAccount) (preferred : gmap string bool).

Lemma segment_open (filename : string) (v v' : locals) (w : world) :
  commit_count v' = commit_count v → returncode v' = returncode v →
  segment E v w v' (log (EOpen filename) w) [EOpen filename].
Proof.
  intros Hc Hr. split; simpl; try done.
  - unfold descriptor_commits. simpl. lia.
  - by repeat constructor.
Qed.

(** An iteration that returns normally is a segment. *)
Lemma body_segment (filename : string) (v v' : locals) (w w' : world) :
  update_body E account preferred filename v w = (inr v', w') →
  ∃ t, segment E v w v' w' t.
Proof.
  intros H. apply body_inv in H as [(_ & -> & ->)|[(_ & _ & -> & ->)|H]].
  - eexists. by apply segment_open.
  - eexists. by apply segment_open.
  - destruct H as (_ & _ & _ & a & rc & Ha & _ & Hs & Hr & Ht & Hrc).
    exists (generation_events account filename a rc).
    split; try done.
    + rewrite generation_events_commits.
      destruct Hrc as [(-> & _ & _ & ->)|(-> & _ & _ & ->)]; simpl; lia.
    + rewrite generation_events_commits.
      destruct Hrc as [(-> & _ & _ & ->)|(-> & _ & -> & ->)]; simpl; done.
    + rewrite generation_events_commits.
      destruct Hrc as [(-> & _ & _ & ->)|(-> & _ & _ & ->)]; simpl; done.
    + apply generation_events_quiet.
    + intros _. destruct Hrc as [(_ & _ & -> & _)|(_ & -> & -> & _)]; done.
    + intros b Hb. rewrite generation_events_files.
      intros Hf%Forall_inv. rewrite Hs. apply compatible_keeps; [|done].
      by apply Hf.
    + intros _. rewrite generation_events_files. constructor; [|constructor].
      intros a' Ha'. rewrite Ha in Ha'. injection Ha' as <-.
      rewrite Hs. apply map_union_subseteq_l.
Qed.

Lemma loop_segment (l : list string) (v v' : locals) (w w' : world) :
  for_ l (update_body E account preferred) v w = (inr v', w') →
  ∃ t, segment E v w v' w' t.
Proof.
  revert v w. induction l as [|x l IH]; intros v w; simpl.
  - unfold mret, M_ret. intros [= <- <-]. eexists. apply segment_refl.
  - intros (vm & wm & Hb & Hl)%for_cons_inv.
    destruct (body_segment _ _ _ _ _ Hb) as [t1 S1].
    destruct (IH _ _ Hl) as [t2 S2].
    eexists. by eapply segment_trans.
Qed.

(** Running the loop again over a working copy that equals [HEAD] and holds
    every artifact the first run generated visits the same descriptors,
    changes nothing and commits nothing. *)
Lemma loop_again (l : list string) (v1 v1' : locals) (w1 w1' : world)
    (t1 : list event) (T : tree) :
  for_ l (update_body E account preferred) v1 w1 = (inr v1', w1') →
  trace w1' = (trace w1 ++ t1)%list →
  Forall (λ f, ∀ a, artifact_for E f = Some a → writes a ⊆ T)
         (generated_files t1) →
  ∀ v2 w2,
    processed v2 = processed v1 →
    service w2 = T → head_tree (commits w2) = T →
    ∃ v2' w2' t2,
      for_ l (update_body E account preferred) v2 w2 = (inr v2', w2') ∧
      trace w2' = (trace w2 ++ t2)%list ∧
      descriptor_commits t2 = 0 ∧
      Forall (λ e, publishes e = false) t2 ∧
      service w2' = T ∧ commits w2' = commits w2 ∧ remote w2' = remote w2 ∧
      commit_count v2' = commit_count v2 ∧ returncode v2' = returncode v2.
Proof.
  revert v1 w1 t1. induction l as [|x l IH]; intros v1 w1 t1; simpl.
  - unfold mret, M_ret. intros [= <- <-] _ _ v2 w2 _ Hs Hh.
    exists v2, w2, []. rewrite app_nil_r. repeat split; done.
  - intros (vm & wm & Hb & Hl)%for_cons_inv Ht Hall v2 w2 Hp Hs Hh.
    destruct (body_segment _ _ _ _ _ Hb) as [ta Sa].
    destruct (loop_segment _ _ _ _ _ Hl) as [tb Sb].
    assert (t1 = (ta ++ tb)%list) as ->.
    { rewrite (seg_trace _ _ _ _ _ _ Sb), (seg_trace _ _ _ _ _ _ Sa),
        <- app_assoc in Ht. by apply app_inv_head in Ht. }
    rewrite generated_files_app in Hall. apply Forall_app in Hall as [Ha Hb'].
    pose proof (body_processed _ _ _ _ _ _ _ _ Hb) as Hpm.
    assert (∃ vm2 wm2 ta2,
      update_body E account preferred x v2 w2 = (inr vm2, wm2) ∧
      trace wm2 = (trace w2 ++ ta2)%list ∧ descriptor_commits ta2 = 0 ∧
      Forall (λ e, publishes e = false) ta2 ∧
      service wm2 = T ∧ commits wm2 = commits w2 ∧ remote wm2 = remote w2 ∧
      commit_count vm2 = commit_count v2 ∧ returncode vm2 = returncode v2 ∧
      processed vm2 = processed vm) as (vm2 & wm2 & ta2 & Hb2 & Ht2 & Hd2 & Hq2
        & Hs2 & Hc2 & Hr2 & Hcc2 & Hrc2 & Hp2).
    { pose proof Hb as Hb0.
      apply body_inv in Hb as [(Hin & -> & _)|[(Hin & Hex & -> & _)|H]].
      - exists v2, (log (EOpen x) w2), [EOpen x].
        split; [apply body_seen; by rewrite Hp|].
        repeat split; try done. by repeat constructor.
      - eexists _, (log (EOpen x) w2), [EOpen x].
        split; [apply body_excluded; [by rewrite Hp|done]|].
        repeat split; try done; [by repeat constructor|].
        simpl. by rewrite Hp.
      - destruct H as (Hin & Hn & Hpr & a & rc & Har & Hadd & _ & _ & Hta & _).
        assert (ta = generation_events account x a rc) as ->.
        { rewrite (seg_trace _ _ _ _ _ _ Sa) in Hta. by apply app_inv_head in Hta. }
        rewrite generation_events_files in Ha. apply Forall_inv in Ha.
        specialize (Ha a Har).
        destruct (body_unchanged E account preferred x v2 w2 a)
          as (wm2 & Hb2 & Hs2 & Hc2 & Hr2 & Ht2); try done.
        { by rewrite Hp. }
        { rewrite Hs. by apply writes_present. }
        { by rewrite Hs, Hh. }
        eexists _, wm2, _. split; [exact Hb2|]. split; [exact Ht2|].
        rewrite generation_events_commits. simpl.
        repeat split; try done.
        + apply generation_events_quiet.
        + by rewrite Hs2.
        + rewrite Hpm. by rewrite Hp. }
    destruct (IH vm wm tb Hl (seg_trace _ _ _ _ _ _ Sb) Hb' vm2 wm2)
      as (v2' & w2' & tb2 & Hl2 & Htb2 & Hdb2 & Hqb2 & Hsb2 & Hcb2 & Hrb2
          & Hccb2 & Hrcb2); try done.
    { by rewrite Hc2. }
    exists v2', w2', (ta2 ++ tb2)%list.
    unfold mbind, M_bind. rewrite Hb2. split; [done|].
    rewrite Htb2, Ht2, <- app_assoc, descriptor_commits_app, Hd2, Hdb2.
    repeat split; try done; try congruence.
    apply Forall_app. by split.
Qed.

End Segments.

(** ** Traces: what a computation can emit *)

Lemma exec_trace (E : env) (c : command) (w : world) :
  trace (exec E c w).2 = trace w.
Proof. destruct c; simpl; repeat case_match; done. Qed.

Section Emits.
Context (E : env) (P : event → Prop).

Lemma emits_ret {A} (a : A) : emits P (mret a).
Proof.
  intros w r w'. unfold mret, M_ret. intros [= <- <-]. exists [].
  by rewrite app_nil_r.
Qed.

Lemma emits_raise {A} (e : exn) : emits P (raise e : M A).
Proof.
  intros w r w'. unfold raise. intros [= <- <-]. exists [].
  by rewrite app_nil_r.
Qed.

Lemma emits_emit (e : event) : P e → emits P (emit e).
Proof.
  intros He w r w'. unfold emit. intros [= <- <-]. exists [e].
  split; [done|]. by repeat constructor.
Qed.

Lemma emits_bind {A B} (m : M A) (k : A → M B) :
  emits P m → (∀ a, emits P (k a)) → emits P (m ≫= k).
Proof.
  intros Hm Hk w r w'. unfold mbind, M_bind.
  destruct (m w) as [[e|a] wm] eqn:Hmw.
  - intros [= <- <-]. by eapply Hm.
  - intros Hkw. destruct (Hm _ _ _ Hmw) as (t1 & Ht1 & HP1).
    destruct (Hk a _ _ _ Hkw) as (t2 & Ht2 & HP2).
    exists (t1 ++ t2)%list. split; [|by apply Forall_app].
    by rewrite Ht2, Ht1, app_assoc.
Qed.

Lemma emits_call (c : command) (check : bool) :
  (∀ rc, P (ECall c rc)) → emits P (_call E c check).
Proof.
  intros Hc w r w'. unfold _call.
  pose proof (exec_trace E c w) as Ht.
  destruct (exec E c w) as [rc wm]. simpl in Ht.
  destruct (check && negb (rc =? 0)%Z); intros [= <- <-];
    exists [ECall c rc]; simpl; rewrite Ht; (split; [done|]);
    by repeat constructor.
Qed.

Lemma emits_with {A} (m : M A) :
  P EMkdtemp → P ECleanup → emits P m → emits P (with_TemporaryDirectory m).
Proof.
  intros H1 H2 Hm w r w'. unfold with_TemporaryDirectory.
  destruct (m (log EMkdtemp w)) as [r' wm] eqn:Hmw. intros [= <- <-].
  destruct (Hm _ _ _ Hmw) as (t & Ht & HP).
  exists (EMkdtemp :: t ++ [ECleanup])%list. simpl. rewrite Ht. simpl.
  split.
  - by rewrite <- !app_assoc.
  - constructor; [done|]. apply Forall_app. split; [done|]. by repeat constructor.
Qed.

Lemma emits_for {A S} (l : list A) (body : A → S → M S) (s : S) :
  (∀ x s, emits P (body x s)) → emits P (for_ l body s).
Proof.
  intros Hb. revert s. induction l as [|x l IH]; intros s; simpl.
  - apply emits_ret.
  - apply emits_bind; [apply Hb|]. intros s'. apply IH.
Qed.

Lemma emits_listdir : P EListdir → emits P listdir.
Proof.
  intros H w r w'. unfold listdir. intros [= <- <-]. exists [EListdir].
  split; [done|]. by repeat constructor.
Qed.

Lemma emits_path_exists (entry : string) :
  P (EExists entry) → emits P (path_exists entry).
Proof.
  intros H w r w'. unfold path_exists. intros [= <- <-].
  exists [EExists entry]. split; [done|]. by repeat constructor.
Qed.

End Emits.

Ltac emits_step :=
  first
    [ apply emits_ret
    | apply emits_raise
    | apply emits_emit; done
    | apply emits_call; done
    | apply emits_listdir; done
    | apply emits_path_exists; done
    | apply emits_with; [done|done|]
    | apply emits_bind; [|intros ?]
    | progress simpl
    | case_decide
    | case_match ].

(** The pipeline performs none of the aggregator's and publisher's commands,
    however it ends. *)
Lemma pipeline_quiet (E : env) (account : GitHubAccount) :
  emits (λ e, publishes e = false) (regeneration_pipeline E account).
Proof.
  unfold regeneration_pipeline. apply emits_bind.
  - unfold pipeline_setup. repeat emits_step.
  - intros preferred. apply emits_for. intros filename v.
    unfold update_body, open_json, regenerate. repeat emits_step.
Qed.

(** The aggregator makes no per-descriptor commit. *)
Lemma aggregator_no_descriptor_commit (E : env) (account : GitHubAccount)
    (v : locals) :
  emits (λ e, is_descriptor_commit e = false) (commit_aggregator E account v).
Proof. unfold commit_aggregator. repeat emits_step. Qed.

(** ** The handler of the regeneration job *)

Lemma pipeline_inv (E : env) (account : GitHubAccount) (w w1 : world) (v : locals) :
  regeneration_pipeline E account w = (inr v, w1) →
  ∃ ws tl,
    pipeline_setup E w = (inr (preferred_of (index_items E)), ws) ∧
    for_ (discovery_document_filenames E)
         (update_body E account (preferred_of (index_items E))) locals0 ws
    = (inr v, w1) ∧
    segment E locals0 ws v w1 tl ∧
    service ws = head_tree (remote w) ∧ commits ws = remote w ∧
    remote ws = remote w ∧
    trace ws = (trace w ++ setup_events)%list.
Proof.
  unfold regeneration_pipeline, mbind, M_bind.
  destruct (pipeline_setup E w) as [[e|p] ws] eqn:Hs; [done|].
  intros Hl. pose proof (pipeline_setup_inv _ _ _ _ Hs) as (-> & _ & _ & _ & _ & H).
  destruct (loop_segment _ _ _ _ _ _ _ _ Hl) as [tl Sl].
  destruct H as (H1 & H2 & H3 & H4).
  exists ws, tl. split; [done|]. split; [done|]. split; [done|]. done.
Qed.

Lemma setup_events_commits : descriptor_commits setup_events = 0.
Proof. done. Qed.

Lemma setup_events_quiet : Forall (λ e, publishes e = false) setup_events.
Proof. unfold setup_events. by repeat constructor. Qed.

(** The handler once the header and the credentials are there. *)
Lemma handler_unfold (E : env) (req : request) (w : world) (h : string)
    (account : GitHubAccount) (accounts : list GitHubAccount) :
  headers_get req "X-Appengine-Cron" = Some h →
  datastore_accounts E = account :: accounts →
  cron_clients_php_update E req w
  = match regeneration_pipeline E account (log EMkdtemp (log EDatastoreQuery w)) with
    | (inl e, w1) => (inl e, log ECleanup w1)
    | (inr v, w1) =>
        match commit_aggregator E account v w1 with
        | (inl e, wa) => (inl e, log ECleanup wa)
        | (inr _, wa) => (inr "", log ECleanup wa)
        end
    end.
Proof.
  intros Hh Hacc. unfold cron_clients_php_update. rewrite Hh.
  unfold _get_github_account, with_TemporaryDirectory, emit, mbind, M_bind.
  rewrite Hacc. unfold mret, M_ret.
  destruct (regeneration_pipeline E account _) as [[e|v] w1]; [done|].
  by destruct (commit_aggregator E account v w1) as [[e|u] wa].
Qed.

(** C4. In a run in which no per-descriptor commit succeeds, none of soft
    reset, aggregate commit, remote addition and push is performed; when the
    work before the aggregation step (credentials, clones, generator setup,
    the loop) has not failed, [commit_count] is zero at the end of the loop
    and the run returns the empty body after removing its temporary
    directory: the aggregation step is skipped and adds no error. *)
Theorem no_commit_no_publish (E : env) (req : request) (w : world)
    (t : list event) :
  let run := cron_clients_php_update E req w in
  trace run.2 = (trace w ++ t)%list →
  descriptor_commits t = 0 →
  Forall (λ e, publishes e = false) t ∧
  (∀ account v w1,
     is_Some (headers_get req "X-Appengine-Cron") →
     head (datastore_accounts E) = Some account →
     regeneration_pipeline E account (log EMkdtemp (log EDatastoreQuery w))
     = (inr v, w1) →
     commit_count v = 0 ∧ run = (inr "", log ECleanup w1)).
Proof.
  intros run. subst run.
  destruct (headers_get req "X-Appengine-Cron") as [h|] eqn:Hh.
  2:{ unfold cron_clients_php_update. rewrite Hh. simpl. intros Ht _.
      rewrite <- (app_nil_r (trace w)) in Ht at 1.
      apply app_inv_head in Ht as <-. split; [constructor|].
      intros ? ? ? [? ?]. done. }
  destruct (datastore_accounts E) as [|account accounts] eqn:Hacc.
  { unfold cron_clients_php_update. rewrite Hh.
    unfold _get_github_account, emit, mbind, M_bind. rewrite Hacc. simpl.
    intros Ht _. apply app_inv_head in Ht as <-.
    split; [by repeat constructor|]. intros ? ? ? _ ?. done. }
  rewrite (handler_unfold E req w h account accounts Hh Hacc).
  set (w0 := log EMkdtemp (log EDatastoreQuery w)).
  assert (trace w0 = (trace w ++ [EDatastoreQuery; EMkdtemp])%list) as Hw0.
  { subst w0. simpl. by rewrite <- app_assoc. }
  destruct (regeneration_pipeline E account w0) as [[e|v] w1] eqn:Hp.
  { destruct (pipeline_quiet E account _ _ _ Hp) as (tp & Htp & Hq).
    simpl. rewrite Htp, Hw0, <- !app_assoc.
    intros Ht _. apply app_inv_head in Ht as <-. split.
    - repeat (constructor; [done|]). apply Forall_app. split; [done|].
      by repeat constructor.
    - intros account0 v w2 _ Hhd Hx. simpl in Hhd. injection Hhd as <-.
      congruence. }
  destruct (pipeline_inv _ _ _ _ _ Hp) as (ws & tl & _ & _ & Sl & _ & _ & _ & Hts).
  destruct (commit_aggregator E account v w1) as [ra wa] eqn:Ha.
  destruct (aggregator_no_descriptor_commit E account v _ _ _ Ha)
    as (ta & Hta & Hqa).
  assert (trace (match ra with
                 | inl e => (inl e, log ECleanup wa)
                 | inr _ => (inr "", log ECleanup wa)
                 end : (exn + string) * world).2
          = (trace w ++ [EDatastoreQuery; EMkdtemp] ++ setup_events ++ tl ++ ta
                     ++ [ECleanup])%list) as ->.
  { destruct ra as [e|u]; simpl;
      rewrite Hta, (seg_trace _ _ _ _ _ _ Sl), Hts, Hw0;
      by rewrite <- !app_assoc. }
  intros Ht Hc. apply app_inv_head in Ht as <-.
  rewrite !descriptor_commits_app, setup_events_commits in Hc.
  assert (descriptor_commits tl = 0) as Hl by lia.
  destruct (seg_none _ _ _ _ _ _ Sl Hl) as [_ Hrc]. simpl in Hrc.
  pose proof (seg_count _ _ _ _ _ _ Sl) as Hcc. rewrite Hl in Hcc. simpl in Hcc.
  unfold commit_aggregator in Ha. rewrite Hrc in Ha. simpl in Ha.
  unfold mret, M_ret in Ha. injection Ha as <- <-.
  rewrite <- (app_nil_r (trace w1)) in Hta at 1. apply app_inv_head in Hta as <-.
  split.
  - rewrite !Forall_app. split; [by repeat constructor|].
    split; [apply setup_events_quiet|]. split; [apply Sl|].
    by repeat constructor.
  - intros account' v' w1' _ Hhd Hx. simpl in Hhd. injection Hhd as <-.
    rewrite Hp in Hx. injection Hx as <- <-. done.
Qed.

(** ** Running the regeneration job twice *)

(** When the aggregator returns normally, the history it leaves on GitHub
    ends with the tree of the working copy, or nothing was committed and
    nothing is pushed. *)
Lemma aggregator_inv (E : env) (account : GitHubAccount) (v : locals)
    (wl wa : world) (u : unit) :
  commit_aggregator E account v wl = (inr u, wa) →
  (returncode v ≠ 0%Z ∧ wa = wl) ∨
  (returncode v = 0%Z ∧ head_tree (remote wa) = service wl).
Proof.
  unfold commit_aggregator.
  destruct (returncode v =? 0)%Z eqn:Hrc.
  2:{ unfold mret, M_ret. intros [= <- <-]. left. split; [|done].
      by apply Z.eqb_neq. }
  apply Z.eqb_eq in Hrc. intros H. right. split; [done|].
  unfold_M. simpl in H.
  destruct (decide (commit_count v < List.length (commits wl))%nat); simpl in H;
    [|done].
  destruct (decide (service wl = head_tree (drop (commit_count v) (commits wl))));
    simpl in H; [done|].
  destruct (decide (commitmsg (today E) (added v) (updated v) = "" ∧ false = false));
    simpl in H; [done|].
  destruct (sh E (git_remote_add _ _ _) =? 0)%Z; simpl in H; [|done].
  destruct (decide (sh E (git_push "github" false client_lib_dir) = 0%Z));
    simpl in H.
  - by injection H as <- <-.
  - destruct (sh E (git_push "github" false client_lib_dir) =? 0)%Z eqn:Hp;
      simpl in H; [|done]. by apply Z.eqb_eq in Hp.
Qed.

Lemma aggregator_generates_nothing (E : env) (account : GitHubAccount)
    (v : locals) :
  emits (λ e, generated_file e = None) (commit_aggregator E account v).
Proof. unfold commit_aggregator. repeat emits_step. Qed.

Lemma generated_files_none (t : list event) :
  Forall (λ e, generated_file e = None) t → generated_files t = [].
Proof.
  unfold generated_files. induction 1 as [|e t He _ IH]; [done|].
  simpl. by rewrite He.
Qed.

(** C9, as the code has it. When a run of the regeneration job succeeds
    and any two documents it generated are compatible (they write the same
    content to every entry of [src/Google/Service] that both occupy), a
    second run on the same catalog with the same generator succeeds too,
    makes no per-descriptor commit, runs none of the aggregator's commands
    and leaves the repository on GitHub as it is. *)
Theorem second_run_no_commits (E : env) (req : request) (w0 w1 : world)
    (t1 : list event) :
  cron_clients_php_update E req w0 = (inr "", w1) →
  trace w1 = (trace w0 ++ t1)%list →
  pairwise_compatible E (generated_files t1) →
  ∃ w2 t2,
    cron_clients_php_update E req w1 = (inr "", w2) ∧
    trace w2 = (trace w1 ++ t2)%list ∧
    descriptor_commits t2 = 0 ∧
    Forall (λ e, publishes e = false) t2 ∧
    remote w2 = remote w1.
Proof.
  intros Hrun Ht1 Hcompat.
  destruct (headers_get req "X-Appengine-Cron") as [h|] eqn:Hh.
  2:{ unfold cron_clients_php_update in Hrun. by rewrite Hh in Hrun. }
  destruct (datastore_accounts E) as [|account accounts] eqn:Hacc.
  { unfold cron_clients_php_update in Hrun. rewrite Hh in Hrun.
    unfold _get_github_account, emit, mbind, M_bind in Hrun.
    by rewrite Hacc in Hrun. }
  rewrite (handler_unfold E req w0 h account accounts Hh Hacc) in Hrun.
  destruct (regeneration_pipeline E account _) as [[e|v] wl] eqn:Hp; [done|].
  destruct (pipeline_inv _ _ _ _ _ Hp)
    as (ws & tl & Hsetup & Hloop & Sl & Hsws & Hcws & Hrws & Htws).
  destruct (commit_aggregator E account v wl) as [[e|u] wa] eqn:Ha; [done|].
  injection Hrun as <-.
  destruct (aggregator_generates_nothing E account v _ _ _ Ha) as (ta & Hta & Hga).
  (* the documents generated in the first run are those of its loop *)
  assert (generated_files t1 = generated_files tl) as Hgen.
  { assert (t1 = ([EDatastoreQuery; EMkdtemp] ++ setup_events ++ tl ++ ta
                  ++ [ECleanup])%list) as ->.
    { simpl in Ht1. rewrite Hta, (seg_trace _ _ _ _ _ _ Sl), Htws in Ht1.
      simpl in Ht1. rewrite <- !app_assoc in Ht1.
      by apply app_inv_head in Ht1 as <-. }
    rewrite !generated_files_app, (generated_files_none ta Hga).
    simpl. by rewrite app_nil_r. }
  rewrite Hgen in Hcompat.
  pose proof (seg_writes _ _ _ _ _ _ Sl Hcompat) as Hwrites.
  assert (service wl = head_tree (commits wl)) as Hhead.
  { apply Sl. by rewrite Hsws, Hcws. }
  (* the history on GitHub ends with the tree of the working copy *)
  assert (head_tree (remote wa) = service wl) as Hremote.
  { destruct (aggregator_inv _ _ _ _ _ _ Ha) as [[Hrc ->]|[_ H]]; [|done].
    destruct (decide (descriptor_commits tl = 0)) as [Hz|Hnz].
    - destruct (seg_none _ _ _ _ _ _ Sl Hz) as [Hc _].
      rewrite (seg_remote _ _ _ _ _ _ Sl), Hrws, Hhead, Hc, Hcws. done.
    - by apply (seg_some _ _ _ _ _ _ Sl) in Hnz. }
  (* the second run *)
  pose proof (pipeline_setup_inv _ _ _ _ Hsetup) as (_ & S1 & S2 & S3 & S4 & _).
  set (w1 := log ECleanup wa) in *.
  destruct (pipeline_setup_ok E (log EMkdtemp (log EDatastoreQuery w1)) S1 S2 S3 S4)
    as (ws2 & Hsetup2 & Hsws2 & Hcws2 & Hrws2 & Htws2).
  simpl in Hsws2, Hcws2, Hrws2.
  destruct (loop_again E account (preferred_of (index_items E))
              (discovery_document_filenames E) locals0 v ws wl tl (service wl)
              Hloop (seg_trace _ _ _ _ _ _ Sl) Hwrites locals0 ws2)
    as (v2 & wl2 & tl2 & Hloop2 & Htl2 & Hd2 & Hq2 & Hs2 & Hc2 & Hr2 & Hcc2 & Hrc2);
    [done|by rewrite Hsws2|by rewrite Hcws2|].
  exists (log ECleanup wl2),
    ([EDatastoreQuery; EMkdtemp] ++ setup_events ++ tl2 ++ [ECleanup])%list.
  split; [|split; [|split; [|split]]].
  - rewrite (handler_unfold E req w1 h account accounts Hh Hacc).
    unfold regeneration_pipeline, mbind, M_bind. rewrite Hsetup2, Hloop2.
    unfold commit_aggregator. rewrite Hrc2. done.
  - simpl. rewrite Htl2, Htws2. simpl. by rewrite <- !app_assoc.
  - rewrite !descriptor_commits_app, Hd2. done.
  - rewrite !Forall_app. split; [by repeat constructor|].
    split; [apply setup_events_quiet|]. split; [done|]. by repeat constructor.
  - simpl. by rewrite Hr2, Hrws2.
Qed.

(** ** The properties on concrete catalogs *)

Lemma cron_requires_header_witness :
  headers_get Example.other_request "X-Appengine-Cron" = None ∧
  cron_discoveries Example.catalog Example.other_request Example.world0
  = (inl (HTTPException 403), Example.world0) ∧
  cron_clients_php_update Example.catalog Example.other_request Example.world0
  = (inl (HTTPException 403), Example.world0) ∧
  cron_clients_php_release Example.catalog Example.other_request Example.world0
  = (inl (HTTPException 403), Example.world0).
Proof.
  split; [reflexivity|].
  apply (cron_requires_header Example.catalog Example.other_request Example.world0).
  reflexivity.
Defined.



Lemma dedup_by_id_witness :
  let body := update_body Example.catalog Example.account
                (preferred_of (index_items Example.catalog)) in
  let r := for_ ["discoveries/alpha.v1.json"; "discoveries/gamma.v1.json"] body
             locals0 (Example.start Example.catalog Example.world0) in
  let v := Example.value locals0 r in
  r = (inr v, r.2) ∧
  "gamma:v1" ∈ processed v ∧
  body "discoveries/alpha-copy.v1.json" v r.2
  = (inr v, log (EOpen "discoveries/alpha-copy.v1.json") r.2).
Proof.
  intros body r v.
  assert (r = (inr v, r.2)) as Hr by (vm_compute; reflexivity).
  split; [exact Hr|].
  destruct (dedup_by_id Example.catalog Example.account
              (preferred_of (index_items Example.catalog))
              ["discoveries/alpha.v1.json"; "discoveries/gamma.v1.json"]
              locals0 v (Example.start Example.catalog Example.world0) r.2 Hr)
    as (Hall & Hskip & _).
  split.
  - apply (Hall "discoveries/gamma.v1.json"). by repeat constructor.
  - apply (Hskip "discoveries/alpha.v1.json"); [by repeat constructor|reflexivity].
Defined.

Lemma excluded_not_generated_witness :
  preferred_of (index_items Example.catalog) !! "gamma:v1" = Some false ∧
  ∃ v', update_body Example.catalog Example.account
          (preferred_of (index_items Example.catalog))
          "discoveries/gamma.v1.json" locals0 Example.world0
        = (inr v', log (EOpen "discoveries/gamma.v1.json") Example.world0) ∧
        commit_count v' = 0.
Proof.
  split; [by vm_compute|].
  destruct (excluded_not_generated Example.catalog Example.account
              "discoveries/gamma.v1.json" locals0 Example.world0)
    as (v' & Hb & _ & _ & Hc & _); [right; by vm_compute|].
  exists v'. split; [exact Hb|exact Hc].
Defined.

Lemma classification_exact_witness :
  let body := update_body Example.catalog Example.account
                (preferred_of (index_items Example.catalog)) in
  let r1 := for_ ["discoveries/alpha.v1.json"] body locals0
              (Example.start Example.catalog Example.world_kept) in
  let r2 := body "discoveries/beta.v1.json" (Example.value locals0 r1) r1.2 in
  let r3 := for_ ["discoveries/gamma.v1.json"] body (Example.value locals0 r2) r2.2 in
  let v3 := Example.value locals0 r3 in
  "beta:v1" ∈ added v3 ∧ ("beta:v1" ∉ updated v3) ∧ added v3 ## updated v3.
Proof.
  intros body r1 r2 r3 v3.
  destruct (classification_exact Example.catalog Example.account
              (preferred_of (index_items Example.catalog))
              ["discoveries/alpha.v1.json"] ["discoveries/gamma.v1.json"]
              "discoveries/beta.v1.json"
              (Example.value locals0 r1) (Example.value locals0 r2) v3
              (Example.start Example.catalog Example.world_kept) r1.2 r2.2 r3.2
              (generation_events Example.account "discoveries/beta.v1.json"
                 {| art_name := "Beta"; art_file := "2"; art_dir := Dir "2" |} 0))
    as (a & Ha & Hadd & Hupd & Hdisj & _);
    [vm_compute; reflexivity|vm_compute; reflexivity|vm_compute; reflexivity
    |unfold generation_events; repeat constructor|vm_compute; reflexivity|].
  vm_compute in Ha. injection Ha as <-. simpl in Hadd, Hupd.
  assert (¬ is_Some (service r1.2 !! "Beta.php")) as Hno.
  { intros [x Hx]. vm_compute in Hx. discriminate. }
  split; [by apply Hadd|]. split; [|exact Hdisj].
  intros Hu. by apply Hupd in Hu.
Defined.

Lemma no_commit_no_publish_witness :
  descriptor_commits (Example.second_run Example.catalog) = 0 ∧
  Forall (λ e, publishes e = false) (Example.second_run Example.catalog) ∧
  cron_clients_php_update Example.catalog Example.cron_request
    (Example.world1 Example.catalog)
  = (inr "", (cron_clients_php_update Example.catalog Example.cron_request
                (Example.world1 Example.catalog)).2).
Proof.
  split; [by vm_compute|].
  destruct (no_commit_no_publish Example.catalog Example.cron_request
              (Example.world1 Example.catalog)
              (Example.second_run Example.catalog))
    as [Hq Hrun]; [vm_compute; reflexivity..|].
  split; [exact Hq|].
  destruct (Hrun Example.account
              (Example.value locals0
                 (regeneration_pipeline Example.catalog Example.account
                    (log EMkdtemp (log EDatastoreQuery
                                     (Example.world1 Example.catalog)))))
              (regeneration_pipeline Example.catalog Example.account
                 (log EMkdtemp (log EDatastoreQuery
                                  (Example.world1 Example.catalog)))).2)
    as [_ H]; [by eexists|reflexivity|vm_compute; reflexivity|].
  rewrite H. vm_compute. reflexivity.
Defined.

Lemma missing_preferred_key_witness :
  cron_clients_php_update Example.unindexed Example.cron_request Example.world0
  = (inl (KeyError "beta:v1"),
     (cron_clients_php_update Example.unindexed Example.cron_request
        Example.world0).2).
Proof.
  pose (r := for_ ["discoveries/alpha.v1.json"]
               (update_body Example.unindexed Example.account
                  (preferred_of (index_items Example.unindexed)))
               locals0 (Example.start Example.unindexed Example.world0)).
  destruct (missing_preferred_key Example.unindexed Example.cron_request
              Example.world0 (Example.start Example.unindexed Example.world0) r.2
              Example.account [] ["discoveries/alpha.v1.json"]
              ["discoveries/gamma.v1.json"; "discoveries/discovery.v1.json";
               "discoveries/alpha-copy.v1.json"]
              "discoveries/beta.v1.json"
              (preferred_of (index_items Example.unindexed))
              (Example.value locals0 r))
    as [_ H];
    [by eexists|reflexivity|by vm_compute|by vm_compute|by vm_compute| | | | | |].
  - vm_compute. set_solver.
  - by vm_compute.
  - vm_compute. set_solver.
  - by vm_compute.
  - by vm_compute.
  - rewrite H. vm_compute. reflexivity.
Defined.

(** C9 as the claim states it fails: with two documents of distinct ids
    that the generator writes under one service name with different
    content, on a client library that already holds a service, the first
    run succeeds and the second run, on the same catalog with the same
    generator, makes two per-descriptor commits (and then fails at the
    aggregate commit, which finds nothing to commit). *)
Lemma second_run_commits_counterexample :
  doc_id (discovery_document Example.clash "discoveries/alpha.v1.json")
  ≠ doc_id (discovery_document Example.clash "discoveries/beta.v1.json") ∧
  (cron_clients_php_update Example.clash Example.cron_request
     Example.world_kept).1 = inr "" ∧
  descriptor_commits (Example.second_run_from Example.clash Example.world_kept)
  = 2 ∧
  descriptor_commits (Example.second_run_from Example.clash Example.world_kept)
  ≠ 0.
Proof. by vm_compute. Qed.

Lemma second_run_no_commits_witness :
  ∃ w2 t2,
    cron_clients_php_update Example.catalog Example.cron_request
      (Example.world1_from Example.catalog Example.world_kept) = (inr "", w2) ∧
    trace w2
    = (trace (Example.world1_from Example.catalog Example.world_kept) ++ t2)%list ∧
    descriptor_commits t2 = 0 ∧
    Forall (λ e, publishes e = false) t2 ∧
    remote w2 = remote (Example.world1_from Example.catalog Example.world_kept).
Proof.
  apply (second_run_no_commits Example.catalog Example.cron_request
           Example.world_kept
           (Example.world1_from Example.catalog Example.world_kept)
           (trace (Example.world1_from Example.catalog Example.world_kept))).
  - vm_compute. reflexivity.
  - reflexivity.
  - apply (bool_decide_unpack _). by vm_compute.
Defined.

(** ** Further properties: the handlers *)

(** X1. Without a [GitHubAccount] entity in Datastore, each handler raises
    [IndexError] right after the query: no temporary directory is created
    and no command is run. *)
Theorem missing_credentials (E : env) (req : request) (w : world) :
  is_Some (headers_get req "X-Appengine-Cron") →
  datastore_accounts E = [] →
  cron_discoveries E req w = (inl IndexError, log EDatastoreQuery w) ∧
  cron_clients_php_update E req w = (inl IndexError, log EDatastoreQuery w) ∧
  cron_clients_php_release E req w = (inl IndexError, log EDatastoreQuery w).
Proof.
  intros [h Hh] Hacc.
  unfold cron_discoveries, cron_clients_php_update, cron_clients_php_release.
  rewrite Hh. unfold _get_github_account, emit, mbind, M_bind.
  by rewrite Hacc.
Qed.

Lemma missing_credentials_witness :
  cron_clients_php_update Scenario.no_account Example.cron_request Example.world0
  = (inl IndexError, log EDatastoreQuery Example.world0).
Proof.
  apply (missing_credentials Scenario.no_account Example.cron_request
           Example.world0); [by eexists|reflexivity].
Defined.

(** X2. The catalog sync job pushes exactly when its commit returns zero: with a
    non-zero return code (nothing to commit) it returns the empty body
    without adding a remote or pushing; with return code zero it adds the
    remote whose URL carries the credentials and pushes. *)
Theorem discoveries_push_iff_commit (E : env) (req : request) (w : world)
    (account : GitHubAccount) (accounts : list GitHubAccount) :
  let run := cron_discoveries E req w in
  let add := git_remote_add "github"
               (remote_url account "/googleapis/discovery-artifact-manager")
               dartman_dir in
  let push := git_push "github" false dartman_dir in
  is_Some (headers_get req "X-Appengine-Cron") →
  datastore_accounts E = account :: accounts →
  sh E dartman_clone = 0%Z → sh E ln_s = 0%Z →
  sh E (go_run "src/main/updatedisco/main.go") = 0%Z →
  sh E (git_add "discoveries" dartman_dir) = 0%Z →
  (sh E (discoveries_commit account) ≠ 0%Z →
     run.1 = inr "" ∧
     trace run.2
     = (trace w ++ discoveries_events account (sh E (discoveries_commit account))
                ++ [ECleanup])%list) ∧
  (sh E (discoveries_commit account) = 0%Z →
     sh E add = 0%Z → sh E push = 0%Z →
     run.1 = inr "" ∧
     trace run.2
     = (trace w ++ discoveries_events account 0
                ++ [ECall add 0; ECall push 0; ECleanup])%list).
Proof.
  intros run add push [h Hh] Hacc H1 H2 H3 H4. subst run.
  unfold cron_discoveries. rewrite Hh. unfold_M. rewrite Hacc. simpl.
  fold dartman_clone (discoveries_commit account) add push.
  rewrite H1. simpl. rewrite H2. simpl. rewrite H3. simpl. rewrite H4. simpl.
  split.
  - intros Hc%Z.eqb_neq. rewrite Hc. simpl. split; [done|].
    by rewrite <- !app_assoc.
  - intros Hc Ha Hp. rewrite Hc. simpl. rewrite Ha. simpl. rewrite Hp. simpl.
    split; [done|]. by rewrite <- !app_assoc.
Qed.

Lemma discoveries_push_iff_commit_witness :
  (cron_discoveries Scenario.unchanged_catalog Example.cron_request
     Example.world0).1 = inr "" ∧
  trace (cron_discoveries Scenario.unchanged_catalog Example.cron_request
           Example.world0).2
  = (discoveries_events Example.account 1 ++ [ECleanup])%list.
Proof.
  destruct (discoveries_push_iff_commit Scenario.unchanged_catalog
              Example.cron_request Example.world0 Example.account [])
    as [H _]; [by eexists|reflexivity..|].
  apply H. by vm_compute.
Defined.

(** ** Further properties: temporary directories *)

Section Appends.
Context (E : env) (Q : list event → Prop).
Context (Qnil : Q []) (Qapp : ∀ t1 t2, Q t1 → Q t2 → Q (t1 ++ t2)%list).

Lemma appends_ret {A} (a : A) : appends Q (mret a).
Proof.
  intros w r w'. unfold mret, M_ret. intros [= <- <-]. exists [].
  by rewrite app_nil_r.
Qed.

Lemma appends_raise {A} (e : exn) : appends Q (raise e : M A).
Proof.
  intros w r w'. unfold raise. intros [= <- <-]. exists [].
  by rewrite app_nil_r.
Qed.

Lemma appends_emit (e : event) : Q [e] → appends Q (emit e).
Proof. intros He w r w'. unfold emit. intros [= <- <-]. by exists [e]. Qed.

Lemma appends_bind {A B} (m : M A) (k : A → M B) :
  appends Q m → (∀ a, appends Q (k a)) → appends Q (m ≫= k).
Proof.
  intros Hm Hk w r w'. rewrite bind_unfold.
  destruct (m w) as [[e|a] wm] eqn:Hmw.
  - intros [= <- <-]. by eapply Hm.
  - intros Hkw. destruct (Hm _ _ _ Hmw) as (t1 & Ht1 & HQ1).
    destruct (Hk a _ _ _ Hkw) as (t2 & Ht2 & HQ2).
    exists (t1 ++ t2)%list. split; [|by apply Qapp].
    by rewrite Ht2, Ht1, app_assoc.
Qed.

Lemma appends_call (c : command) (check : bool) :
  (∀ rc, Q [ECall c rc]) → appends Q (_call E c check).
Proof.
  intros Hc w r w'. unfold _call.
  pose proof (exec_trace E c w) as Ht.
  destruct (exec E c w) as [rc wm]. simpl in Ht.
  destruct (check && negb (rc =? 0)%Z); intros [= <- <-];
    exists [ECall c rc]; simpl; by rewrite Ht.
Qed.

Lemma appends_check_output (c : command) :
  (∀ rc, Q [ECall c rc]) → appends Q (check_output E c).
Proof.
  intros Hc w r w'. unfold check_output.
  destruct (sh_output E c); intros [= <- <-]; by eexists [_].
Qed.

Lemma appends_with {A} (m : M A) :
  (∀ t, Q t → Q (EMkdtemp :: t ++ [ECleanup])%list) →
  appends Q m → appends Q (with_TemporaryDirectory m).
Proof.
  intros HQ Hm w r w'. unfold with_TemporaryDirectory.
  destruct (m (log EMkdtemp w)) as [r' wm] eqn:Hmw. intros [= <- <-].
  destruct (Hm _ _ _ Hmw) as (t & Ht & Hq).
  exists (EMkdtemp :: t ++ [ECleanup])%list. split; [|by apply HQ].
  simpl. rewrite Ht. simpl. by rewrite <- !app_assoc.
Qed.

Lemma appends_for {A S} (l : list A) (body : A → S → M S) (s : S) :
  (∀ x s, appends Q (body x s)) → appends Q (for_ l body s).
Proof.
  intros Hb. revert s. induction l as [|x l IH]; intros s; simpl.
  - apply appends_ret.
  - apply appends_bind; [apply Hb|]. intros s'. apply IH.
Qed.

Lemma appends_listdir : Q [EListdir] → appends Q listdir.
Proof. intros H w r w'. unfold listdir. intros [= <- <-]. by exists [EListdir]. Qed.

Lemma appends_path_exists (entry : string) :
  Q [EExists entry] → appends Q (path_exists entry).
Proof.
  intros H w r w'. unfold path_exists. intros [= <- <-]. by exists [EExists entry].
Qed.

End Appends.

Lemma balanced_nil : balanced [].
Proof. done. Qed.

Lemma balanced_app (t1 t2 : list event) :
  balanced t1 → balanced t2 → balanced (t1 ++ t2).
Proof.
  unfold balanced. rewrite !List.filter_app, !length_app. lia.
Qed.

Lemma balanced_with (t : list event) :
  balanced t → balanced (EMkdtemp :: t ++ [ECleanup]).
Proof.
  unfold balanced. simpl. rewrite !List.filter_app, !length_app. simpl. lia.
Qed.

Ltac balanced_step :=
  first
    [ apply (appends_ret balanced balanced_nil)
    | apply (appends_raise balanced balanced_nil)
    | apply appends_emit; done
    | apply appends_call; done
    | apply appends_check_output; done
    | apply appends_listdir; done
    | apply appends_path_exists; done
    | apply appends_with; [exact balanced_with|]
    | apply (appends_bind balanced balanced_app); [|intros ?]
    | progress simpl
    | case_decide
    | case_match ].

Lemma update_body_balanced (E : env) (account : GitHubAccount)
    (preferred : gmap string bool) (filename : string) (v : locals) :
  appends balanced (update_body E account preferred filename v).
Proof. unfold update_body, open_json, regenerate. repeat balanced_step. Qed.

(** A handler of the shape the three have is tidy when the work in its
    temporary directory is balanced. *)
Lemma handler_tidy (E : env) (req : request) (w : world)
    (m : GitHubAccount → M unit) :
  (∀ account, appends balanced (m account)) →
  tidy w (match headers_get req "X-Appengine-Cron" with
          | None => raise (HTTPException 403)
          | Some _ =>
              account ← _get_github_account E;
              with_TemporaryDirectory (m account);;
              mret ""
          end w).
Proof.
  intros Hm. destruct (headers_get req "X-Appengine-Cron") as [h|].
  2:{ exists []. simpl. rewrite app_nil_r. split; [done|]. split; [done|]. by left. }
  unfold _get_github_account, emit, with_TemporaryDirectory.
  rewrite !bind_unfold.
  destruct (datastore_accounts E) as [|account accounts].
  { exists [EDatastoreQuery]. simpl. split; [done|]. split; [done|].
    right. by left. }
  unfold mret at 1, M_ret at 1. rewrite bind_unfold.
  destruct (m account (log EMkdtemp (log EDatastoreQuery w))) as [r wm] eqn:Hmw.
  destruct (Hm _ _ _ _ Hmw) as (t & Ht & Hb).
  exists (EDatastoreQuery :: EMkdtemp :: t ++ [ECleanup])%list.
  split; [|split].
  - destruct r as [e|u]; simpl; rewrite Ht; simpl; by rewrite <- !app_assoc.
  - change (balanced ([EDatastoreQuery] ++ (EMkdtemp :: t ++ [ECleanup]))).
    apply balanced_app; [done|]. by apply balanced_with.
  - right. right. by exists t.
Qed.

(** X3. Whatever the outcome of a handler, every temporary directory it has
    created is removed, and removing the outer one is the last thing the
    handler does. *)
Theorem temporary_directories_removed (E : env) (req : request) (w : world) :
  tidy w (cron_discoveries E req w) ∧
  tidy w (cron_clients_php_update E req w) ∧
  tidy w (cron_clients_php_release E req w).
Proof.
  split; [|split].
  - unfold cron_discoveries. apply (handler_tidy E req w (λ account, _)).
    intros account. repeat balanced_step.
  - unfold cron_clients_php_update. apply (handler_tidy E req w (λ account, _)).
    intros account. apply (appends_bind balanced balanced_app).
    + unfold regeneration_pipeline. apply (appends_bind balanced balanced_app).
      * unfold pipeline_setup. repeat balanced_step.
      * intros p. apply (appends_for balanced balanced_nil balanced_app).
        intros f v. apply update_body_balanced.
    + intros v. unfold commit_aggregator. repeat balanced_step.
  - unfold cron_clients_php_release. apply (handler_tidy E req w (λ account, _)).
    intros account. repeat balanced_step.
Qed.

(** ** Further properties: the loop's counters and the clone's history *)

Section Counters.
Context (E : env) (account : GitHubAccount) (preferred : gmap string bool).

Lemma body_counters (filename : string) (v v' : locals) (w w' : world) :
  update_body E account preferred filename v w = (inr v', w') →
  classified v →
  commit_count v = size (added v) + size (updated v) →
  commit_count v' = size (added v') + size (updated v') ∧
  ∃ news, commits w' = (news ++ commits w)%list ∧
          List.length news + commit_count v = commit_count v' ∧
          Forall (λ c, commit_msg c = "") news.
Proof.
  intros H [Hsub Hdisj] Hc.
  apply body_inv in H as [(_ & -> & ->)|[(_ & _ & -> & ->)|H]].
  - split; [done|]. by exists [].
  - split; [done|]. by exists [].
  - destruct H as (Hin & _ & _ & a & rc & _ & _ & _ & _ & _ & [H|H]).
    + destruct H as (_ & _ & -> & ->). split.
      * simpl. destruct (bool_decide _); simpl;
          rewrite size_union, size_singleton by set_solver; lia.
      * eexists [_]. simpl. split; [done|]. split; [lia|]. by repeat constructor.
    + destruct H as (_ & _ & -> & ->). split; [done|]. by exists [].
Qed.

Lemma loop_counters_from (l : list string) (v0 v : locals) (w0 w : world) :
  for_ l (update_body E account preferred) v0 w0 = (inr v, w) →
  classified v0 →
  commit_count v0 = size (added v0) + size (updated v0) →
  classified v ∧ commit_count v = size (added v) + size (updated v) ∧
  ∃ news, commits w = (news ++ commits w0)%list ∧
          List.length news + commit_count v0 = commit_count v ∧
          Forall (λ c, commit_msg c = "") news.
Proof.
  revert v0 w0. induction l as [|x l IH]; intros v0 w0; simpl.
  - unfold mret, M_ret. intros [= <- <-] Hc Hs. split; [done|].
    split; [done|]. by exists [].
  - intros (vm & wm & Hb & Hl)%for_cons_inv Hc Hs.
    destruct (body_classified _ _ _ _ _ _ _ _ Hb Hc) as [Hcm _].
    destruct (body_counters _ _ _ _ _ Hb Hc Hs) as (Hsm & n1 & Hn1 & Hl1 & Hm1).
    destruct (IH _ _ Hl Hcm Hsm) as (Hc' & Hs' & n2 & Hn2 & Hl2 & Hm2).
    split; [done|]. split; [done|]. exists (n2 ++ n1)%list.
    rewrite Hn2, Hn1, length_app, <- app_assoc. split; [done|].
    split; [lia|]. by apply Forall_app.
Qed.

(** The commits a loop that returned normally has made are on top of the
    history it started from, [commit_count] of them. *)
Lemma loop_history (l : list string) (v : locals) (w0 w : world) :
  for_ l (update_body E account preferred) locals0 w0 = (inr v, w) →
  ∃ news, commits w = (news ++ commits w0)%list ∧
          List.length news = commit_count v.
Proof.
  intros H.
  destruct (loop_counters_from _ _ _ _ _ H classified_locals0)
    as (_ & Hs & news & Hn & Hl & Hm); [done|].
  exists news. simpl in Hl. split; [done|lia].
Qed.

Lemma loop_sizes (l : list string) (v : locals) (w0 w : world) :
  for_ l (update_body E account preferred) locals0 w0 = (inr v, w) →
  commit_count v = size (added v) + size (updated v).
Proof.
  intros H.
  by destruct (loop_counters_from _ _ _ _ _ H classified_locals0) as (_ & Hs & _).
Qed.

(** X4. At the end of a loop that returned normally, [commit_count] is the
    number of ids in [added] and [updated] together and the number of
    commits the loop has put on top of the history it started from, each
    with an empty message. *)
Theorem loop_counters (l : list string) (v : locals) (w0 w : world) :
  for_ l (update_body E account preferred) locals0 w0 = (inr v, w) →
  commit_count v = size (added v) + size (updated v) ∧
  ∃ news, commits w = (news ++ commits w0)%list ∧
          List.length news = commit_count v ∧
          Forall (λ c, commit_msg c = "") news.
Proof.
  intros H.
  destruct (loop_counters_from _ _ _ _ _ H classified_locals0)
    as (_ & Hs & news & Hn & Hl & Hm); [done|].
  split; [done|]. exists news. simpl in Hl. split; [done|]. split; [lia|done].
Qed.

End Counters.

Lemma loop_counters_witness :
  let r := for_ (discovery_document_filenames Example.catalog)
             (update_body Example.catalog Example.account
                (preferred_of (index_items Example.catalog)))
             locals0 (Example.start Example.catalog Example.world0) in
  commit_count (Example.value locals0 r) = 2 ∧
  size (added (Example.value locals0 r)) + size (updated (Example.value locals0 r)) = 2.
Proof.
  intros r.
  destruct (loop_counters Example.catalog Example.account
              (preferred_of (index_items Example.catalog))
              (discovery_document_filenames Example.catalog)
              (Example.value locals0 r)
              (Example.start Example.catalog Example.world0) r.2)
    as [Hs _]; [vm_compute; reflexivity|].
  split; [by vm_compute|]. rewrite <- Hs. by vm_compute.
Defined.

(** ** Further properties: what reaches GitHub *)

Lemma exec_remote (E : env) (c : command) (w : world) :
  (∀ r, c ≠ git_push r false client_lib_dir) →
  remote (exec E c w).2 = remote w.
Proof.
  intros Hc. destruct c as [| | | | | | |r tags cwd| | | | | | | | |]; simpl;
    repeat case_match; try done.
  by destruct (Hc r).
Qed.

Section KeepsRemote.
Context (E : env).

Lemma keeps_ret {A} (a : A) : keeps_remote (mret a).
Proof. intros w r w'. unfold mret, M_ret. by intros [= <- <-]. Qed.

Lemma keeps_raise {A} (e : exn) : keeps_remote (raise e : M A).
Proof. intros w r w'. unfold raise. by intros [= <- <-]. Qed.

Lemma keeps_emit (e : event) : keeps_remote (emit e).
Proof. intros w r w'. unfold emit. by intros [= <- <-]. Qed.

Lemma keeps_bind {A B} (m : M A) (k : A → M B) :
  keeps_remote m → (∀ a, keeps_remote (k a)) → keeps_remote (m ≫= k).
Proof.
  intros Hm Hk w r w'. rewrite bind_unfold.
  destruct (m w) as [[e|a] wm] eqn:Hmw.
  - intros [= <- <-]. by eapply Hm.
  - intros Hkw. rewrite (Hk a _ _ _ Hkw). by eapply Hm.
Qed.

Lemma keeps_call (c : command) (check : bool) :
  (∀ r, c ≠ git_push r false client_lib_dir) → keeps_remote (_call E c check).
Proof.
  intros Hc w r w'. unfold _call.
  pose proof (exec_remote E c w Hc) as Hr.
  destruct (exec E c w) as [rc wm]. simpl in Hr.
  by destruct (check && negb (rc =? 0)%Z); intros [= <- <-].
Qed.

Lemma keeps_with {A} (m : M A) :
  keeps_remote m → keeps_remote (with_TemporaryDirectory m).
Proof.
  intros Hm w r w'. unfold with_TemporaryDirectory.
  destruct (m (log EMkdtemp w)) as [r' wm] eqn:Hmw. intros [= <- <-].
  simpl. by rewrite (Hm _ _ _ Hmw).
Qed.

Lemma keeps_for {A S} (l : list A) (body : A → S → M S) (s : S) :
  (∀ x s, keeps_remote (body x s)) → keeps_remote (for_ l body s).
Proof.
  intros Hb. revert s. induction l as [|x l IH]; intros s; simpl.
  - apply keeps_ret.
  - apply keeps_bind; [apply Hb|]. intros s'. apply IH.
Qed.

Lemma keeps_listdir : keeps_remote listdir.
Proof. intros w r w'. unfold listdir. by intros [= <- <-]. Qed.

Lemma keeps_path_exists (entry : string) : keeps_remote (path_exists entry).
Proof. intros w r w'. unfold path_exists. by intros [= <- <-]. Qed.

End KeepsRemote.

Ltac keeps_step :=
  first
    [ apply keeps_ret
    | apply keeps_raise
    | apply keeps_emit
    | apply keeps_call; done
    | apply keeps_listdir
    | apply keeps_path_exists
    | apply keeps_with
    | apply keeps_bind; [|intros ?]
    | progress simpl
    | case_decide
    | case_match ].

(** The pipeline does not push: however it ends, the repository on GitHub
    is as it was. *)
Lemma pipeline_keeps_remote (E : env) (account : GitHubAccount) :
  keeps_remote (regeneration_pipeline E account).
Proof.
  unfold regeneration_pipeline. apply keeps_bind.
  - unfold pipeline_setup. repeat keeps_step.
  - intros p. apply keeps_for. intros f v.
    unfold update_body, open_json, regenerate. repeat keeps_step.
Qed.

(** A push that raises has not changed the repository on GitHub. *)
Lemma push_raise (E : env) (w w' : world) (e : exn) :
  _call E (git_push "github" false client_lib_dir) true w = (inl e, w') →
  remote w' = remote w.
Proof.
  unfold _call. cbn [exec].
  destruct (decide (sh E (git_push "github" false client_lib_dir) = 0%Z)).
  - done.
  - destruct (_ && _); by intros [= <- <-].
Qed.

Lemma aggregator_raise (E : env) (account : GitHubAccount) (v : locals)
    (w w' : world) (e : exn) :
  commit_aggregator E account v w = (inl e, w') → remote w' = remote w.
Proof.
  unfold commit_aggregator. destruct (returncode v =? 0)%Z; [|done].
  rewrite bind_unfold.
  destruct (_call E (git_reset_soft _) true w) as [[e1|rc1] w1] eqn:H1.
  { intros [= <- <-]. by eapply keeps_call in H1. }
  eapply keeps_call in H1; [|done]. rewrite bind_unfold.
  destruct (_call E (git_commit _ _ _ _ _ _) true w1) as [[e2|rc2] w2] eqn:H2.
  { intros [= <- <-]. eapply keeps_call in H2; [|done]. congruence. }
  eapply keeps_call in H2; [|done]. rewrite bind_unfold.
  destruct (_call E (git_remote_add _ _ _) true w2) as [[e3|rc3] w3] eqn:H3.
  { intros [= <- <-]. eapply keeps_call in H3; [|done]. congruence. }
  eapply keeps_call in H3; [|done]. rewrite bind_unfold.
  destruct (_call E (git_push _ _ _) true w3) as [[e4|rc4] w4] eqn:H4; [|done].
  intros [= <- <-]. apply push_raise in H4. congruence.
Qed.

(** X5. A run of the regeneration job that raises, at whatever step, leaves the
    repository on GitHub as it was: nothing is published partially. *)
Theorem failure_publishes_nothing (E : env) (req : request) (w w' : world)
    (e : exn) :
  cron_clients_php_update E req w = (inl e, w') → remote w' = remote w.
Proof.
  destruct (headers_get req "X-Appengine-Cron") as [h|] eqn:Hh.
  2:{ unfold cron_clients_php_update. rewrite Hh. by intros [= <- <-]. }
  destruct (datastore_accounts E) as [|account accounts] eqn:Hacc.
  { unfold cron_clients_php_update. rewrite Hh.
    unfold _get_github_account, emit. rewrite bind_unfold, bind_unfold, Hacc.
    by intros [= <- <-]. }
  rewrite (handler_unfold E req w h account accounts Hh Hacc).
  destruct (regeneration_pipeline E account _) as [[e1|v] w1] eqn:Hp.
  { intros [= <- <-]. by apply pipeline_keeps_remote in Hp. }
  apply pipeline_keeps_remote in Hp.
  destruct (commit_aggregator E account v w1) as [[e2|u] wa] eqn:Ha; [|done].
  intros [= <- <-]. apply aggregator_raise in Ha. simpl in *. congruence.
Qed.

Lemma failure_publishes_nothing_witness :
  (cron_clients_php_update Scenario.failing_generator Example.cron_request
     Example.world0).1
  = inl (CalledProcessError (generate_library "discoveries/beta.v1.json") 1) ∧
  remote (cron_clients_php_update Scenario.failing_generator Example.cron_request
            Example.world0).2
  = remote Example.world0.
Proof.
  assert ((cron_clients_php_update Scenario.failing_generator
             Example.cron_request Example.world0).1
          = inl (CalledProcessError
                   (generate_library "discoveries/beta.v1.json") 1)) as H
    by (by vm_compute).
  split; [exact H|].
  apply (failure_publishes_nothing Scenario.failing_generator
           Example.cron_request Example.world0 _
           (CalledProcessError (generate_library "discoveries/beta.v1.json") 1)).
  rewrite <- H. by destruct (cron_clients_php_update _ _ _).
Defined.

Lemma call_fail (E : env) (c : command) (w : world) :
  (exec E c w).1 ≠ 0%Z →
  _call E c true w
  = (inl (CalledProcessError c (exec E c w).1),
     log (ECall c (exec E c w).1) (exec E c w).2).
Proof.
  unfold _call. destruct (exec E c w) as [rc wm]. simpl.
  intros Hrc%Z.eqb_neq. by rewrite Hrc.
Qed.

(** When the aggregator returns normally after commits were made, it has
    reset the history by [commit_count] commits, put one commit with the
    summary message and the tree of the working copy on top and pushed it. *)
Lemma aggregator_pushed (E : env) (account : GitHubAccount) (v : locals)
    (wl wa : world) (u : unit) :
  commit_aggregator E account v wl = (inr u, wa) →
  returncode v = 0%Z →
  (commit_count v < List.length (commits wl))%nat ∧
  service wl ≠ head_tree (drop (commit_count v) (commits wl)) ∧
  remote wa
  = aggregate_commit E v (service wl) :: drop (commit_count v) (commits wl).
Proof.
  unfold commit_aggregator. intros H Hrc. rewrite Hrc in H. simpl in H.
  unfold_M. simpl in H.
  destruct (decide (commit_count v < List.length (commits wl))%nat); simpl in H;
    [|done].
  destruct (decide (service wl = head_tree (drop (commit_count v) (commits wl))));
    simpl in H; [done|].
  destruct (decide (commitmsg (today E) (added v) (updated v) = "" ∧ false = false));
    simpl in H; [done|].
  destruct (sh E (git_remote_add _ _ _) =? 0)%Z; simpl in H; [|done].
  destruct (decide (sh E (git_push "github" false client_lib_dir) = 0%Z));
    simpl in H.
  - by injection H as <- <-.
  - destruct (sh E (git_push "github" false client_lib_dir) =? 0)%Z eqn:Hp;
      simpl in H; [|done]. by apply Z.eqb_eq in Hp.
Qed.

(** X6. In a run of the regeneration job that succeeds, the loop has
    returned loop variables [v] and left a working copy, and the run either
    makes no per-descriptor commit and leaves the repository on GitHub as
    it was, or publishes exactly one commit on top of the history it
    cloned: the aggregate commit, whose message is the summary of the
    loop's sets [added] and [updated], which hold as many ids as
    per-descriptor commits were made, and whose tree is the working copy at
    the end of the loop, which differs from the tree cloned. *)
Theorem published_history (E : env) (req : request) (w0 w1 : world)
    (t : list event) :
  cron_clients_php_update E req w0 = (inr "", w1) →
  trace w1 = (trace w0 ++ t)%list →
  ∃ account v wl,
    head (datastore_accounts E) = Some account ∧
    regeneration_pipeline E account (log EMkdtemp (log EDatastoreQuery w0))
    = (inr v, wl) ∧
    commit_count v = descriptor_commits t ∧
    size (added v) + size (updated v) = descriptor_commits t ∧
    ((descriptor_commits t = 0 ∧ remote w1 = remote w0) ∨
     (descriptor_commits t ≠ 0 ∧
      remote w1
      = {| commit_msg := commitmsg (today E) (added v) (updated v);
           commit_tree := service wl |} :: remote w0 ∧
      service wl ≠ head_tree (remote w0))).
Proof.
  intros Hrun Ht.
  destruct (headers_get req "X-Appengine-Cron") as [h|] eqn:Hh.
  2:{ unfold cron_clients_php_update in Hrun. by rewrite Hh in Hrun. }
  destruct (datastore_accounts E) as [|account accounts] eqn:Hacc.
  { unfold cron_clients_php_update in Hrun. rewrite Hh in Hrun.
    unfold _get_github_account, emit in Hrun.
    by rewrite bind_unfold, bind_unfold, Hacc in Hrun. }
  rewrite (handler_unfold E req w0 h account accounts Hh Hacc) in Hrun.
  destruct (regeneration_pipeline E account _) as [[e|v] wl] eqn:Hp; [done|].
  destruct (pipeline_inv _ _ _ _ _ Hp)
    as (ws & tl & Hsetup & Hloop & Sl & Hsws & Hcws & Hrws & Htws).
  simpl in Hsws, Hcws, Hrws.
  destruct (commit_aggregator E account v wl) as [[e|u] wa] eqn:Ha; [done|].
  injection Hrun as <-.
  destruct (aggregator_no_descriptor_commit E account v _ _ _ Ha)
    as (ta & Hta & Hqa).
  assert (descriptor_commits t = descriptor_commits tl) as Hd.
  { assert (t = ([EDatastoreQuery; EMkdtemp] ++ setup_events ++ tl ++ ta
                 ++ [ECleanup])%list) as ->.
    { simpl in Ht. rewrite Hta, (seg_trace _ _ _ _ _ _ Sl), Htws in Ht.
      simpl in Ht. rewrite <- !app_assoc in Ht.
      by apply app_inv_head in Ht as <-. }
    rewrite !descriptor_commits_app, setup_events_commits,
      (descriptor_commits_quiet ta Hqa).
    change (descriptor_commits [EDatastoreQuery; EMkdtemp]) with 0.
    change (descriptor_commits [ECleanup]) with 0. lia. }
  rewrite Hd.
  pose proof (seg_count _ _ _ _ _ _ Sl) as Hcount. simpl in Hcount.
  pose proof (loop_sizes _ _ _ _ _ _ _ Hloop) as Hsize.
  destruct (loop_history _ _ _ _ _ _ _ Hloop) as (news & Hnews & Hlen).
  exists account, v, wl. split; [done|]. split; [done|].
  split; [lia|]. split; [lia|].
  destruct (decide (descriptor_commits tl = 0)) as [Hz|Hnz].
  - left. split; [done|].
    destruct (seg_none _ _ _ _ _ _ Sl Hz) as [_ Hrc]. simpl in Hrc.
    destruct (aggregator_inv _ _ _ _ _ _ Ha) as [[_ ->]|[Hrc' _]].
    + simpl. by rewrite (seg_remote _ _ _ _ _ _ Sl).
    + rewrite Hrc in Hrc'. done.
  - right. split; [done|].
    pose proof (seg_some _ _ _ _ _ _ Sl Hnz) as Hrc.
    destruct (aggregator_pushed _ _ _ _ _ _ Ha Hrc) as (_ & Hne & Hr).
    rewrite Hnews, Hcws, <- Hlen, drop_app_length in Hne, Hr.
    simpl. split; done.
Qed.

Lemma published_history_witness :
  let r := regeneration_pipeline Example.catalog Example.account
             (log EMkdtemp (log EDatastoreQuery Example.world_kept)) in
  let v := Example.value locals0 r in
  remote (Example.world1_from Example.catalog Example.world_kept)
  = {| commit_msg := commitmsg (today Example.catalog) (added v) (updated v);
       commit_tree := service r.2 |} :: remote Example.world_kept ∧
  size (added v) + size (updated v) = 2.
Proof.
  intros r v.
  destruct (published_history Example.catalog Example.cron_request
              Example.world_kept
              (Example.world1_from Example.catalog Example.world_kept)
              (trace (Example.world1_from Example.catalog Example.world_kept)))
    as (account & v' & wl & Hacc & Hp & _ & Hs & [[Hz _]|(_ & Hr & _)]);
    [vm_compute; reflexivity|reflexivity| |].
  - vm_compute in Hz. discriminate.
  - injection Hacc as <-. subst v. unfold Example.value. subst r.
    rewrite Hp. cbn [fst snd]. split; [exact Hr|].
    rewrite Hs. vm_compute. reflexivity.
Defined.

(** X7. When per-descriptor commits were made but the working copy at the end
    of the loop is the tree that was cloned, the aggregate commit finds
    nothing to commit: the handler raises [CalledProcessError] for it and
    nothing is pushed. *)
Theorem empty_aggregate_commit_fails (E : env) (req : request) (w wl : world)
    (account : GitHubAccount) (accounts : list GitHubAccount) (v : locals) :
  let run := cron_clients_php_update E req w in
  is_Some (headers_get req "X-Appengine-Cron") →
  datastore_accounts E = account :: accounts →
  remote w ≠ [] →
  regeneration_pipeline E account (log EMkdtemp (log EDatastoreQuery w))
  = (inr v, wl) →
  commit_count v ≠ 0 →
  service wl = head_tree (remote w) →
  run.1 = inl (CalledProcessError
                 (git_commit (name account) (email account) true false
                    (commitmsg (today E) (added v) (updated v)) client_lib_dir)
                 1) ∧
  remote run.2 = remote w.
Proof.
  intros run [h Hh] Hacc Hne Hp Hcc Hs. subst run.
  rewrite (handler_unfold E req w h account accounts Hh Hacc), Hp.
  destruct (pipeline_inv _ _ _ _ _ Hp)
    as (ws & tl & Hsetup & Hloop & Sl & Hsws & Hcws & Hrws & Htws).
  simpl in Hsws, Hcws, Hrws.
  destruct (loop_history _ _ _ _ _ _ _ Hloop) as (news & Hnews & Hlen).
  pose proof (seg_count _ _ _ _ _ _ Sl) as Hcount. simpl in Hcount.
  assert (returncode v = 0%Z) as Hrc by (apply Sl; lia).
  assert (remote wl = remote w) as Hrl by (by rewrite (seg_remote _ _ _ _ _ _ Sl)).
  unfold commit_aggregator. rewrite Hrc. simpl.
  assert (exec E (git_reset_soft (commit_count v)) wl
          = (0%Z, set_commits (remote w) wl)) as Hreset.
  { cbn [exec]. rewrite decide_True.
    - by rewrite Hnews, Hcws, <- Hlen, drop_app_length.
    - rewrite Hnews, Hcws, length_app. destruct (remote w); [done|]. simpl. lia. }
  erewrite bind_ok; [|apply call_ok; by rewrite Hreset].
  rewrite Hreset. cbn [snd].
  rewrite bind_unfold, call_fail; cbn [exec service commits log set_commits];
    rewrite decide_True by done; [|done].
  simpl. by rewrite Hrl.
Qed.

Lemma empty_aggregate_commit_fails_witness :
  ∃ msg,
    (cron_clients_php_update Example.clash Example.cron_request
       (Example.world1 Example.clash)).1
    = inl (CalledProcessError
             (git_commit "bot" "bot@example.com" true false msg client_lib_dir) 1)
    ∧ remote (cron_clients_php_update Example.clash Example.cron_request
                (Example.world1 Example.clash)).2
      = remote (Example.world1 Example.clash).
Proof.
  pose (r := regeneration_pipeline Example.clash Example.account
               (log EMkdtemp (log EDatastoreQuery (Example.world1 Example.clash)))).
  eexists.
  apply (empty_aggregate_commit_fails Example.clash Example.cron_request
           (Example.world1 Example.clash) r.2 Example.account []
           (Example.value locals0 r)).
  - by eexists.
  - reflexivity.
  - by vm_compute.
  - vm_compute. reflexivity.
  - by vm_compute.
  - vm_compute. reflexivity.
Defined.

(** ** Further properties: the preferred dictionary and the release tags *)

Lemma preferred_foldl (items : list api) (m : gmap string bool) (i : string) :
  foldl (λ p a, <[api_id a := api_preferred a]> p) m items !! i
  = match last (filter (λ a, api_id a = i) items) with
    | Some a => Some (api_preferred a)
    | None => m !! i
    end.
Proof.
  revert m. induction items as [|a items IH]; intros m; simpl; [done|].
  rewrite IH, filter_cons. destruct (decide (api_id a = i)) as [<-|Hne].
  - rewrite last_cons. destruct (last _); [done|]. by rewrite lookup_insert_eq.
  - destruct (last _); [done|]. by rewrite lookup_insert_ne.
Qed.

(** X8. The two overridden ids are preferred whatever the index says; for any
    other id the dictionary holds the flag of the last index entry with that
    id, and nothing when the index has no such entry. *)
Theorem preferred_of_lookup (items : list api) :
  preferred_of items !! "admin:directory_v1" = Some true ∧
  preferred_of items !! "admin:datatransfer_v1" = Some true ∧
  ∀ i, i ≠ "admin:directory_v1" → i ≠ "admin:datatransfer_v1" →
       preferred_of items !! i
       = api_preferred <$> last (filter (λ a, api_id a = i) items).
Proof.
  unfold preferred_of. split; [|split].
  - by rewrite lookup_insert_ne, lookup_insert_eq.
  - by rewrite lookup_insert_eq.
  - intros i H1 H2. rewrite !lookup_insert_ne by done.
    rewrite preferred_foldl, lookup_empty. by destruct (last _).
Qed.

Lemma preferred_of_lookup_witness :
  preferred_of [ {| api_id := "admin:directory_v1"; api_preferred := false |};
                 {| api_id := "beta:v1"; api_preferred := true |};
                 {| api_id := "beta:v1"; api_preferred := false |} ] !! "beta:v1"
  = Some false.
Proof.
  destruct (preferred_of_lookup
              [ {| api_id := "admin:directory_v1"; api_preferred := false |};
                {| api_id := "beta:v1"; api_preferred := true |};
                {| api_id := "beta:v1"; api_preferred := false |} ])
    as (_ & _ & H).
  rewrite H by done. by vm_compute.
Defined.

Lemma string_of_uint_digits (d : Decimal.uint) :
  digit_string (NilEmpty.string_of_uint d) = true.
Proof. induction d; simpl; done. Qed.

Lemma str_digits (n : N) : digit_string (Py.str n) = true ∧ Py.str n ≠ "".
Proof.
  split; [apply string_of_uint_digits|].
  intros H. pose proof (int_str n) as Hi. by rewrite H in Hi.
Qed.

(** X9. The pattern accepts exactly the texts [v<major>.<minor>], alone or
    followed by one line feed (Python's [$]); the groups are the major
    prefix with its [v] and the minor digits. *)
Theorem match_language (s : string) (m : VersionRe.match_) :
  VersionRe.match' s = Some m ↔
  ∃ major,
    VersionRe.group1 m = "v" +:+ major ∧ major ≠ "" ∧ VersionRe.group2 m ≠ "" ∧
    digit_string major = true ∧ digit_string (VersionRe.group2 m) = true ∧
    (VersionRe.after m = "" ∨ VersionRe.after m = Py.nl) ∧
    s = VersionRe.group1 m +:+ "." +:+ VersionRe.group2 m +:+ VersionRe.after m.
Proof.
  split; [apply match_inv|].
  intros (major & H1 & Hmaj & Hmin & D1 & D2 & Ha & ->).
  destruct m as [g1 g2 a]. simpl in *. subst g1.
  rewrite append_assoc.
  change ("v" +:+ major +:+ "." +:+ g2 +:+ a)
    with (String "v" (major +:+ String "." (g2 +:+ a))).
  unfold VersionRe.match'. simpl Ascii.eqb. cbv iota.
  rewrite (digits_app major (String "." (g2 +:+ a)) D1 eq_refl).
  destruct major as [|c major]; [done|].
  simpl Ascii.eqb. cbv iota.
  rewrite (digits_app g2 a D2) by (by destruct Ha as [-> | ->]).
  destruct g2 as [|c2 g2]; [done|].
  rewrite bool_decide_eq_true_2 by done. done.
Qed.

(** X10. The tag the release job computes from a tag [v<major>.<minor>] is again
    of that form: the pattern accepts it with the same major prefix, and its
    minor reads as the old minor plus one.  The job can run on its own
    output. *)
Theorem next_tag_accepted (major minor : string) :
  major ≠ "" → minor ≠ "" →
  digit_string major = true → digit_string minor = true →
  ∃ n, Py.int minor = Some n ∧
       let next := VersionRe.sub (Py.str (n + 1)) ("v" +:+ major +:+ "." +:+ minor) in
       version_tag next ∧
       ∃ m, VersionRe.match' next = Some m ∧
            VersionRe.group1 m = "v" +:+ major ∧
            Py.int (VersionRe.group2 m) = Some (n + 1)%N.
Proof.
  intros Hmaj Hmin Dmaj Dmin.
  destruct (int_digit_string minor Hmin Dmin) as [n Hn]. exists n.
  split; [done|]. simpl. rewrite sub_version_tag by done.
  destruct (str_digits (n + 1)) as [Ds Hs]. split.
  - by exists major, (Py.str (n + 1)).
  - eexists. split; [by apply match_version_tag|]. simpl.
    split; [done|apply int_str].
Qed.

Lemma next_tag_accepted_witness :
  version_tag (VersionRe.sub "10" "v1.009").
Proof.
  destruct (next_tag_accepted "1" "009") as (n & Hn & Hv & _); [done..|].
  vm_compute in Hn. injection Hn as <-. exact Hv.
Defined.

Lemma match_language_witness :
  VersionRe.match' ("v0.12" +:+ Py.nl)
  = Some {| VersionRe.group1 := "v0"; VersionRe.group2 := "12";
            VersionRe.after := Py.nl |}.
Proof.
  apply (proj2 (match_language ("v0.12" +:+ Py.nl)
                  {| VersionRe.group1 := "v0"; VersionRe.group2 := "12";
                     VersionRe.after := Py.nl |})).
  exists "0". repeat split; try done. by right.
Defined.

(** ** Further properties: the service name *)

Lemma rfind_from_app (c : ascii) (a b : string) (i last : Z) :
  Py.rfind_from c (a +:+ b) i last
  = Py.rfind_from c b (i + Z.of_nat (String.length a))%Z (Py.rfind_from c a i last).
Proof.
  revert i last. induction a as [|x a IH]; intros i last.
  - change ("" +:+ b) with b. simpl. by rewrite Z.add_0_r.
  - change (String x a +:+ b) with (String x (a +:+ b)).
    cbn [Py.rfind_from String.length]. rewrite IH. f_equal. lia.
Qed.

Lemma rfind_from_plain (c : ascii) (n : string) (i last : Z) :
  c = "."%char ∨ c = "/"%char → plain n = true →
  Py.rfind_from c n i last = last.
Proof.
  intros Hc. revert i last. induction n as [|x n IH]; intros i last; simpl; [done|].
  intros [[Hd Hs]%andb_true_iff Hn]%andb_true_iff.
  apply negb_true_iff in Hd, Hs.
  rewrite IH by done. by destruct Hc as [-> | ->]; rewrite ?Hd, ?Hs.
Qed.

Lemma substring_prefix (n t : string) :
  substring 0 (String.length n) (n +:+ t) = n.
Proof.
  induction n as [|x n IH].
  - simpl. by destruct ("" +:+ t).
  - change (String x n +:+ t) with (String x (n +:+ t)). simpl. by rewrite IH.
Qed.

Lemma plain_not_dots (n : string) : n ≠ "" → plain n = true → Py.all_dots n = false.
Proof.
  destruct n as [|x n]; [done|]. simpl. intros _ H.
  apply andb_true_iff in H as [[Hd _]%andb_true_iff _].
  apply negb_true_iff in Hd. by rewrite Hd.
Qed.

Lemma append_php_ne (n : string) : n +:+ ".php" ≠ n.
Proof.
  intros H. apply (f_equal String.length) in H.
  assert (∀ a b, String.length (a +:+ b) = String.length a + String.length b) as L.
  { intros a b. induction a as [|x a IH]; [done|].
    change (String x a +:+ b) with (String x (a +:+ b)). simpl. by rewrite IH. }
  rewrite L in H. simpl in H. lia.
Qed.

(** X11. For a service name without dot and separator, [splitext] maps both the
    file [<name>.php] and the directory [<name>] to the name: the artifact
    found in an output directory with these two entries does not depend on
    which of them [os.listdir] lists first. *)
Theorem service_name_of_either_entry (n c : string) (d : node) :
  n ≠ "" → plain n = true →
  Py.splitext (n +:+ ".php") = n ∧ Py.splitext n = n ∧
  artifact_of [(n +:+ ".php", File c); (n, d)]
  = Some {| art_name := n; art_file := c; art_dir := d |} ∧
  artifact_of [(n, d); (n +:+ ".php", File c)]
  = Some {| art_name := n; art_file := c; art_dir := d |}.
Proof.
  intros Hne Hp.
  assert (Py.splitext (n +:+ ".php") = n) as H1.
  { unfold Py.splitext, Py.rfind. rewrite !rfind_from_app.
    rewrite (rfind_from_plain "/" n), (rfind_from_plain "." n) by auto.
    simpl Py.rfind_from. rewrite Z.add_0_l.
    assert ((-1 <? Z.of_nat (String.length n))%Z = true) as ->
      by (apply Z.ltb_lt; lia).
    replace (Z.to_nat (-1 + 1)) with 0 by lia.
    replace (Z.to_nat (Z.of_nat (String.length n) - (-1 + 1)))
      with (String.length n) by lia.
    rewrite substring_prefix, plain_not_dots by done.
    unfold Py.slice_to. rewrite Nat2Z.id. apply substring_prefix. }
  assert (Py.splitext n = n) as H2.
  { unfold Py.splitext, Py.rfind.
    by rewrite (rfind_from_plain "/" n), (rfind_from_plain "." n) by auto. }
  split; [done|]. split; [done|].
  pose proof (append_php_ne n) as Hphp.
  unfold artifact_of. simpl. rewrite H1, H2. simpl.
  destruct (decide (n +:+ ".php" = n +:+ ".php")); [|done].
  destruct (decide (n +:+ ".php" = n)); [done|].
  destruct (decide (n = n +:+ ".php")); [done|].
  by destruct (decide (n = n)).
Qed.

Lemma service_name_of_either_entry_witness :
  Py.splitext "BigQuery.php" = "BigQuery" ∧ Py.splitext "BigQuery" = "BigQuery".
Proof.
  destruct (service_name_of_either_entry "BigQuery" "" (Dir ""))
    as (H1 & H2 & _); [done..|].
  split; [exact H1|exact H2].
Defined.

(** ** Further properties: what the loop generates, and its failures *)

Section Generated.
Context (E : env) (account : GitHubAccount) (preferred : gmap string bool).

Lemma body_generated (filename : string) (v v' : locals) (w w' : world) :
  update_body E account preferred filename v w = (inr v', w') →
  let id_ := doc_id (discovery_document E filename) in
  ∃ ta, trace w' = (trace w ++ ta)%list ∧
        processed v' = {[id_]} ∪ processed v ∧
        (generated_files ta = [] ∨
         (generated_files ta = [filename] ∧ (id_ ∉ processed v) ∧
          preferred !! id_ = Some true ∧
          doc_name (discovery_document E filename) ≠ "discovery")).
Proof.
  intros H id_. pose proof (body_processed _ _ _ _ _ _ _ _ H) as Hp.
  apply body_inv in H as [(_ & _ & ->)|[(_ & _ & _ & ->)|H]].
  - exists [EOpen filename]. split; [done|]. split; [done|]. by left.
  - exists [EOpen filename]. split; [done|]. split; [done|]. by left.
  - destruct H as (Hin & Hn & Hpr & a & rc & _ & _ & _ & _ & Ht & _).
    eexists. split; [exact Ht|]. split; [done|]. right.
    by rewrite generation_events_files.
Qed.

Lemma loop_generated (l : list string) (v0 v : locals) (w0 w : world)
    (t : list event) :
  for_ l (update_body E account preferred) v0 w0 = (inr v, w) →
  trace w = (trace w0 ++ t)%list →
  NoDup ((λ f, doc_id (discovery_document E f)) <$> generated_files t) ∧
  Forall (λ f, f ∈ l ∧ (doc_id (discovery_document E f) ∉ processed v0) ∧
               preferred !! doc_id (discovery_document E f) = Some true ∧
               doc_name (discovery_document E f) ≠ "discovery")
         (generated_files t) ∧
  processed v
  = list_to_set ((λ f, doc_id (discovery_document E f)) <$> l) ∪ processed v0.
Proof.
  revert v0 w0 t. induction l as [|x l IH]; intros v0 w0 t; simpl.
  - unfold mret, M_ret. intros [= <- <-] Ht.
    rewrite <- (app_nil_r (trace w0)) in Ht at 1. apply app_inv_head in Ht as <-.
    split; [constructor|]. split; [constructor|]. set_solver.
  - intros (vm & wm & Hb & Hl)%for_cons_inv Ht.
    destruct (body_generated _ _ _ _ _ Hb) as (ta & Hta & Hpm & Hga).
    destruct (loop_segment _ _ _ _ _ _ _ _ Hl) as [tb Sb].
    pose proof (seg_trace _ _ _ _ _ _ Sb) as Htb.
    assert (t = (ta ++ tb)%list) as ->.
    { rewrite Htb, Hta, <- app_assoc in Ht. by apply app_inv_head in Ht. }
    destruct (IH _ _ _ Hl Htb) as (Hnd & Hall & Hp).
    rewrite generated_files_app, fmap_app.
    split; [|split].
    + destruct Hga as [-> | (-> & Hin & _)]; [done|]. simpl.
      apply NoDup_cons. split; [|done].
      intros (f & Hid & Hf)%list_elem_of_fmap.
      rewrite Forall_forall in Hall. destruct (Hall f Hf) as (_ & Hnot & _).
      apply Hnot. rewrite Hpm, <- Hid. set_solver.
    + apply Forall_app. split.
      * destruct Hga as [-> | (-> & Hin & Hpr & Hn)]; [constructor|].
        constructor; [|constructor]. split; [by left|done].
      * eapply Forall_impl; [exact Hall|]. intros f (Hf & Hnot & Hpr & Hn).
        split; [by right|]. split; [|done]. rewrite Hpm in Hnot. set_solver.
    + rewrite Hp, Hpm. set_solver.
Qed.

(** X12. In a loop that returns normally the generator runs at most once per
    descriptor id, only for documents of the list whose id the dictionary
    maps to true and that are not named [discovery]; at the end [processed]
    is exactly the set of the ids of the documents visited. *)
Theorem generated_once (l : list string) (v : locals) (w0 w : world)
    (t : list event) :
  for_ l (update_body E account preferred) locals0 w0 = (inr v, w) →
  trace w = (trace w0 ++ t)%list →
  NoDup ((λ f, doc_id (discovery_document E f)) <$> generated_files t) ∧
  Forall (λ f, f ∈ l ∧
               preferred !! doc_id (discovery_document E f) = Some true ∧
               doc_name (discovery_document E f) ≠ "discovery")
         (generated_files t) ∧
  processed v = list_to_set ((λ f, doc_id (discovery_document E f)) <$> l).
Proof.
  intros H Ht. destruct (loop_generated _ _ _ _ _ _ H Ht) as (Hnd & Hall & Hp).
  split; [done|]. split.
  - eapply Forall_impl; [exact Hall|]. by intros f (? & _ & ? & ?).
  - rewrite Hp. simpl. set_solver.
Qed.

End Generated.

Lemma generated_once_witness :
  let w0 := Example.start Example.catalog Example.world0 in
  let r := for_ (discovery_document_filenames Example.catalog)
             (update_body Example.catalog Example.account
                (preferred_of (index_items Example.catalog))) locals0 w0 in
  generated_files (drop (List.length (trace w0)) (trace r.2))
  = ["discoveries/alpha.v1.json"; "discoveries/beta.v1.json"] ∧
  NoDup ((λ f, doc_id (discovery_document Example.catalog f))
           <$> generated_files (drop (List.length (trace w0)) (trace r.2))).
Proof.
  intros w0 r. split; [by vm_compute|].
  apply (generated_once Example.catalog Example.account
           (preferred_of (index_items Example.catalog))
           (discovery_document_filenames Example.catalog)
           (Example.value locals0 r) w0 r.2).
  - vm_compute. reflexivity.
  - vm_compute. reflexivity.
Defined.

(** X13. An exception raised in an iteration of the loop is not caught: it
    leaves the handler after the temporary directory is removed, and the
    documents after the failing one are not visited. *)
Theorem iteration_exception_propagates (E : env) (req : request)
    (w ws w1 w2 : world) (account : GitHubAccount)
    (accounts : list GitHubAccount) (pre post : list string)
    (filename : string) (p : gmap string bool) (v1 : locals) (e : exn) :
  is_Some (headers_get req "X-Appengine-Cron") →
  datastore_accounts E = account :: accounts →
  discovery_document_filenames E = (pre ++ filename :: post)%list →
  pipeline_setup E (log EMkdtemp (log EDatastoreQuery w)) = (inr p, ws) →
  for_ pre (update_body E account p) locals0 ws = (inr v1, w1) →
  update_body E account p filename v1 w1 = (inl e, w2) →
  cron_clients_php_update E req w = (inl e, log ECleanup w2).
Proof.
  intros [h Hh] Hacc Hfiles Hsetup Hpre Hbody.
  pose proof (pipeline_setup_inv _ _ _ _ Hsetup) as (-> & _).
  rewrite (handler_unfold E req w h account accounts Hh Hacc).
  unfold regeneration_pipeline. rewrite bind_unfold, Hsetup, Hfiles, for_app, Hpre.
  simpl. by rewrite bind_unfold, Hbody.
Qed.

(** X14. What the replacement of an artifact does when the generator fails or
    its output directory is empty: it raises [CalledProcessError] for the
    generator, respectively [IndexError], before the target tree is
    touched. *)
Theorem regenerate_failures (E : env) (filename : string) (w : world) :
  let run := regenerate E filename w in
  (generator E filename = None →
     run.1 = inl (CalledProcessError (generate_library filename) 1) ∧
     service run.2 = service w ∧ commits run.2 = commits w ∧
     trace run.2
     = (trace w ++ [EMkdtemp; ECall (generate_library filename) 1; ECleanup])%list) ∧
  (generator E filename = Some [] →
     run.1 = inl IndexError ∧
     service run.2 = service w ∧ commits run.2 = commits w ∧
     trace run.2
     = (trace w ++ [EMkdtemp; ECall (generate_library filename) 0; EListdir;
                    ECleanup])%list).
Proof.
  intros run. subst run. unfold regenerate, with_TemporaryDirectory. split.
  - intros Hg. rewrite bind_unfold, call_fail; cbn [exec]; rewrite Hg; [|done].
    simpl. by rewrite <- !app_assoc.
  - intros Hg. erewrite bind_ok; [|apply call_ok; cbn [exec]; by rewrite Hg].
    cbn [exec]. rewrite Hg. simpl. by rewrite <- !app_assoc.
Qed.

Lemma iteration_exception_propagates_witness :
  (cron_clients_php_update Scenario.failing_generator Example.cron_request
     Example.world0).1
  = inl (CalledProcessError (generate_library "discoveries/beta.v1.json") 1).
Proof.
  set (E := Scenario.failing_generator).
  pose (p := preferred_of (index_items E)).
  pose (ws := Example.start E Example.world0).
  pose (r1 := for_ ["discoveries/alpha.v1.json"]
                (update_body E Example.account p) locals0 ws).
  pose (r2 := update_body E Example.account p "discoveries/beta.v1.json"
                (Example.value locals0 r1) r1.2).
  rewrite (iteration_exception_propagates E Example.cron_request Example.world0
             ws r1.2 r2.2 Example.account [] ["discoveries/alpha.v1.json"]
             ["discoveries/gamma.v1.json"; "discoveries/discovery.v1.json";
              "discoveries/alpha-copy.v1.json"]
             "discoveries/beta.v1.json" p (Example.value locals0 r1)
             (CalledProcessError (generate_library "discoveries/beta.v1.json") 1));
    [done|by eexists|reflexivity|vm_compute; reflexivity..].
Defined.

Lemma regenerate_failures_witness :
  (regenerate Scenario.failing_generator "discoveries/beta.v1.json"
     Example.world0).1
  = inl (CalledProcessError (generate_library "discoveries/beta.v1.json") 1).
Proof.
  destruct (regenerate_failures Scenario.failing_generator
              "discoveries/beta.v1.json" Example.world0) as [H _].
  by destruct H as [H _].
Defined.

(** ** Further properties: the outcomes of the release job *)

(** X16. When [git describe] fails (a repository without tags), the release job
    raises [CalledProcessError] for it: no log is read and no tag is created
    or pushed.  When every command succeeds on a tag [v<major>.<minor>] with
    commits after it, the job creates the tag, adds the remote whose URL
    carries the credentials and pushes with [--tags]. *)
Theorem release_outcomes (E : env) (req : request) (w : world)
    (account : GitHubAccount) (accounts : list GitHubAccount) :
  let run := cron_clients_php_release E req w in
  let add := git_remote_add "github"
               (remote_url account "/google/google-api-php-client-services")
               client_lib_dir in
  let push := git_push "github" true client_lib_dir in
  is_Some (headers_get req "X-Appengine-Cron") →
  datastore_accounts E = account :: accounts →
  sh E client_lib_clone = 0%Z →
  (sh_output E git_describe = None →
     run.1 = inl (CalledProcessError git_describe 1) ∧
     trace run.2
     = (trace w ++ [EDatastoreQuery; EMkdtemp; ECall client_lib_clone 0;
                    ECall git_describe 1; ECleanup])%list) ∧
  (∀ output log_output major minor n,
     sh_output E git_describe = Some output →
     sh_output E (git_log (Py.strip output)) = Some log_output →
     log_output ≠ "" →
     major ≠ "" → minor ≠ "" →
     digit_string major = true → digit_string minor = true →
     Py.strip output = "v" +:+ major +:+ "." +:+ minor →
     Py.int minor = Some n →
     let tag := git_tag ("v" +:+ major +:+ "." +:+ Py.str (n + 1)) in
     (sh E tag ≠ 0%Z →
        run.1 = inl (CalledProcessError tag (sh E tag)) ∧
        trace run.2
        = (trace w ++ release_events (Py.strip output)
                   ++ [ECall tag (sh E tag); ECleanup])%list) ∧
     (sh E tag = 0%Z → sh E add = 0%Z → sh E push = 0%Z →
        run.1 = inr "" ∧
        trace run.2
        = (trace w ++ release_events (Py.strip output)
                   ++ [ECall tag 0; ECall add 0; ECall push 0; ECleanup])%list)).
Proof.
  intros run add push [h Hh] Hacc Hclone. subst run. split.
  - intros Hd. unfold cron_clients_php_release. rewrite Hh. unfold_M.
    rewrite Hacc. simpl. fold client_lib_clone. rewrite Hclone. simpl.
    rewrite Hd. simpl. by rewrite <- !app_assoc.
  - intros output log_output major minor n Hd Hl Hne Hmaj Hmin Dmaj Dmin Htag Hn.
    simpl. unfold cron_clients_php_release. rewrite Hh. unfold_M.
    rewrite Hacc. simpl. fold client_lib_clone. rewrite Hclone. simpl.
    rewrite Hd, Hl. simpl.
    destruct (decide (log_output = "")) as [|_]; [done|].
    rewrite Htag, match_version_tag by done. simpl. rewrite Hn.
    rewrite sub_version_tag by done. fold add push.
    set (tag := git_tag _). unfold release_events. split.
    + intros Ht%Z.eqb_neq. rewrite Ht. simpl. by rewrite <- !app_assoc.
    + intros Ht Ha Hp. rewrite Ht. simpl. rewrite Ha. simpl. rewrite Hp. simpl.
      by rewrite <- !app_assoc.
Qed.

Lemma release_outcomes_witness :
  (cron_clients_php_release Example.catalog Example.cron_request Example.world0).1
  = inr "" ∧
  trace (cron_clients_php_release Example.catalog Example.cron_request
           Example.world0).2
  = (release_events "v0.12"
     ++ [ECall (git_tag "v0.13") 0;
         ECall (git_remote_add "github"
                  (remote_url Example.account
                     "/google/google-api-php-client-services") client_lib_dir) 0;
         ECall (git_push "github" true client_lib_dir) 0; ECleanup])%list.
Proof.
  destruct (release_outcomes Example.catalog Example.cron_request Example.world0
              Example.account []) as [_ H]; [by eexists|reflexivity..|].
  destruct (H ("v0.12" +:+ Py.nl) ("abc1234 Autogenerated update" +:+ Py.nl)
              "0" "12" 12%N) as [_ H2]; [reflexivity|reflexivity|done|done|done
    |reflexivity..|].
  apply H2; reflexivity.
Defined.

(** ** Further properties: the documents the loop visits *)

Lemma length_append (a b : string) :
  String.length (a +:+ b) = String.length a + String.length b.
Proof.
  induction a as [|x a IH]; [done|].
  change (String x a +:+ b) with (String x (a +:+ b)). simpl. by rewrite IH.
Qed.

Lemma substring_all (b : string) : substring 0 (String.length b) b = b.
Proof. induction b as [|x b IH]; [done|]. simpl. by rewrite IH. Qed.

Lemma substring_skip (a b : string) (m : nat) :
  substring (String.length a) m (a +:+ b) = substring 0 m b.
Proof.
  induction a as [|x a IH]; [done|].
  change (String x a +:+ b) with (String x (a +:+ b)). simpl. apply IH.
Qed.

Lemma rfind_from_no_sep (n : string) (i last : Z) :
  no_sep n = true → Py.rfind_from "/" n i last = last.
Proof.
  revert i last. induction n as [|x n IH]; intros i last; simpl; [done|].
  intros [Hs Hn]%andb_true_iff. apply negb_true_iff in Hs.
  rewrite IH by done. by rewrite Hs.
Qed.

(** [os.path.basename] of a path that ends with a separator and a name
    without separator is that name. *)
Lemma basename_join (d n : string) :
  no_sep n = true → Py.basename (d +:+ "/" +:+ n) = n.
Proof.
  intros Hn. unfold Py.basename, Py.rfind, Py.slice_from.
  rewrite rfind_from_app.
  change ("/" +:+ n) with (String "/" n). cbn [Py.rfind_from].
  simpl Ascii.eqb. cbv iota. rewrite rfind_from_no_sep by done.
  rewrite Z.add_0_l.
  replace (Z.to_nat (Z.of_nat (String.length d) + 1))
    with (String.length (d +:+ "/")) by (rewrite length_append; simpl; lia).
  change (d +:+ String "/" n) with (d +:+ "/" +:+ n).
  rewrite <- (append_assoc d "/" n), substring_skip.
  rewrite !length_append. simpl.
  replace (String.length d + 1 + String.length n - (String.length d + 1))
    with (String.length n) by lia.
  apply substring_all.
Qed.

(** X17. The loop visits the files of the glob whose base name is not
    [index.json], in the order of the glob; the index of the catalog,
    whatever the directory of the clone, is not among them. *)
Theorem index_json_not_visited (E : env) :
  (∀ f, f ∈ discovery_document_filenames E ↔
        f ∈ discovery_glob E ∧ Py.basename f ≠ "index.json") ∧
  discovery_document_filenames E `sublist_of` discovery_glob E ∧
  (∀ d, d +:+ "/index.json" ∉ discovery_document_filenames E) ∧
  (∀ d n, no_sep n = true → n ≠ "index.json" →
          d +:+ "/" +:+ n ∈ discovery_glob E →
          d +:+ "/" +:+ n ∈ discovery_document_filenames E).
Proof.
  unfold discovery_document_filenames. split; [|split; [|split]].
  - intros f. rewrite list_elem_of_filter. tauto.
  - apply sublist_filter.
  - intros d [Hb _]%list_elem_of_filter. apply Hb.
    by apply (basename_join d "index.json").
  - intros d n Hn Hne Hin. apply list_elem_of_filter. split; [|done].
    by rewrite basename_join.
Qed.

Lemma index_json_not_visited_witness :
  "discoveries/alpha.v1.json" ∈ discovery_document_filenames Example.catalog ∧
  "discoveries/index.json" ∉ discovery_document_filenames Example.catalog.
Proof.
  destruct (index_json_not_visited Example.catalog) as (_ & _ & Hidx & Hin).
  split.
  - apply (Hin "discoveries" "alpha.v1.json"); [reflexivity|done|].
    by repeat constructor.
  - apply (Hidx "discoveries").
Defined.
